(** * kode-acp: session, permission, tool-mapping and dispatch engine

    A shallow embedding of the TypeScript sources of the adapter and the
    properties established for them:
    - [Permission]: class ToolPermissionManager of tool-converter.ts;
    - [Session]: class SessionManager of session-manager.ts (in this tree
      the text follows the event emitter in src/event-emitter.ts);
    - [Types]: types.ts;
    - [ToolConverter]: class ACPToolConverter of tool-converter.ts;
    - [MultiModel]: class MultiModelManager of multi-model.ts;
    - [Agent]: class KodeAcpAgentSimple of acp-agent-simple.ts.

    Conventions of the embedding.
    - A JavaScript [Map<string, V>] is a [gmap string V]. A [Map] is
      traversed in insertion order and a [gmap] in the order of
      [map_to_list]; no property stated here depends on that order.
    - A [Map] object that can be reached through two references (the
      metadata of a session) lives in an object store and is held by its
      index in that store.
    - [Date.now()] is an input of every operation that reads the clock: one
      reading [now] per call.
    - [generateSessionId()] and [process.cwd()] are inputs as well: the
      values [uuid] and [cwd] they would answer during the call.
    - An optional field [f?: T] is an [option T]; the JavaScript idiom
      [x || d] is [or_str]/[or_num] below (the empty string, zero and an
      absent value are falsy).
    - Every [async] method is run to completion as one atomic step, and the
      listeners of emitted events are not part of the model: an emitted
      event is appended to a log. *)

From stdpp Require Import gmap strings list pretty.
From Stdlib Require Import ZArith QArith.

Local Open Scope string_scope.
Local Open Scope Z_scope.

(** ** JavaScript truthiness helpers *)

(** [o || d] for a possibly absent string. *)
Definition or_str (o : option string) (d : string) : string :=
  match o with
  | Some s => if bool_decide (s = "") then d else s
  | None => d
  end.

(** [o || d] for a possibly absent number. *)
Definition or_num (o : option Z) (d : Z) : Z :=
  match o with
  | Some n => if bool_decide (n = 0) then d else n
  | None => d
  end.

(** [a?.includes(x)]: an absent array answers [undefined], which is falsy. *)
Definition includes (a : option (list string)) (x : string) : bool :=
  match a with
  | Some l => bool_decide (x ∈ l)
  | None => false
  end.

(** ** Numbers and strings *)

(** A number is modelled by an integer. This is exact for the integers a
    double holds exactly, and for the sums and differences that stay
    among the safe integers; the statements that compute with numbers are
    made for these. *)
Definition MAX_SAFE_INTEGER : Z := 2 ^ 53 - 1.

(** [Number.isSafeInteger(x)] *)
Definition isSafeInteger (x : Z) : Prop :=
  - MAX_SAFE_INTEGER ≤ x ≤ MAX_SAFE_INTEGER.

(** A string is modelled by its bytes in UTF-8. The string methods of
    JavaScript count UTF-16 code units; for a text of ASCII characters
    only, these are its bytes. *)
Fixpoint isASCII (s : string) : bool :=
  match s with
  | EmptyString => true
  | String c s => Nat.ltb (Ascii.nat_of_ascii c) 128 && isASCII s
  end.

(** * Tool permission system (tool-converter.ts, class ToolPermissionManager) *)

Module Permission.

Record ToolPermission := {
  toolName : string;
  allowed : bool;
  reason : option string;
  timestamp : Z;
}.

Record PermissionMode := {
  name : string;
  description : string;
  autoApprove : option (list string);
  autoDeny : option (list string);
}.

Record ToolPermissionManager := {
  permissions : gmap string ToolPermission;
  currentMode : string;
  modes : gmap string PermissionMode;
}.

(** The four built-in modes of [initializeModes], in source order. *)
Definition builtinModes : list PermissionMode := [
  {| name := "default";
     description := "Manual approval for all tools";
     autoApprove := Some ["read_file"; "glob"; "search"];
     autoDeny := Some ["run_command"; "edit_file"; "write_file"] |};
  {| name := "accept_edits";
     description := "Auto-approve read operations, prompt for writes";
     autoApprove := Some ["read_file"; "glob"; "search"];
     autoDeny := Some ["run_command"] |};
  {| name := "bypass_permissions";
     description := "Auto-approve all operations";
     autoApprove := Some ["*"];
     autoDeny := None |};
  {| name := "plan";
     description := "Planning mode - no actual operations";
     autoApprove := None;
     autoDeny := Some ["*"] |}
].

(** [for (const mode of modes) this.modes.set(mode.name, mode)] *)
Definition initializeModes : gmap string PermissionMode :=
  foldl (fun acc m => <[name m := m]> acc) ∅ builtinModes.

(** The constructor: no decisions, mode ['default'], built-in modes. *)
Definition new : ToolPermissionManager :=
  {| permissions := ∅; currentMode := "default"; modes := initializeModes |}.

Definition setPermission (now : Z) (t : string) (a : bool)
    (r : option string) (pm : ToolPermissionManager) : ToolPermissionManager :=
  {| permissions :=
       <[t := {| toolName := t; allowed := a; reason := r; timestamp := now |}]>
         (permissions pm);
     currentMode := currentMode pm;
     modes := modes pm |}.

Definition getPermission (t : string) (pm : ToolPermissionManager)
    : option ToolPermission :=
  permissions pm !! t.

(** [requestPermission(toolName, input?)]; [input] is never read. *)
Definition requestPermission (now : Z) (t : string)
    (pm : ToolPermissionManager) : bool * ToolPermissionManager :=
  match modes pm !! currentMode pm with
  | None => (false, pm)
  | Some mode =>
      if includes (autoApprove mode) "*" || includes (autoApprove mode) t
      then (true, setPermission now t true (Some "Auto-approved by mode") pm)
      else if includes (autoDeny mode) "*" || includes (autoDeny mode) t
      then (false, setPermission now t false (Some "Auto-denied by mode") pm)
      else (false, setPermission now t false (Some "Requires explicit approval") pm)
  end.

Definition setMode (modeName : string) (pm : ToolPermissionManager)
    : ToolPermissionManager :=
  if bool_decide (is_Some (modes pm !! modeName))
  then {| permissions := ∅; currentMode := modeName; modes := modes pm |}
  else pm.

Definition getCurrentMode (pm : ToolPermissionManager) : string :=
  currentMode pm.

(** [getAvailableModes]; the [Map] is traversed in the order of
    [map_to_list]. *)
Definition getAvailableModes (pm : ToolPermissionManager) : list PermissionMode :=
  (map_to_list (modes pm)).*2.

(** [clearExpiredPermissions(timeout = 3600000)]: the loop visits the
    entries the [Map] holds and deletes, from the [Map] it is traversing,
    each one that is older than [timeout]. *)
Definition clearExpired (now : Z) (timeout : Z)
    (acc : gmap string ToolPermission) (kv : string * ToolPermission)
    : gmap string ToolPermission :=
  if bool_decide (now - timestamp kv.2 > timeout)
  then delete kv.1 acc else acc.

Definition clearExpiredPermissions (now : Z) (timeout : Z)
    (pm : ToolPermissionManager) : ToolPermissionManager :=
  {| permissions :=
       foldl (clearExpired now timeout)
         (permissions pm) (map_to_list (permissions pm));
     currentMode := currentMode pm;
     modes := modes pm |}.

(** The default retention window of [clearExpiredPermissions]. *)
Definition defaultRetention : Z := 3600000.

(** What can happen to a manager: a call of one of its public methods that
    writes. *)
Inductive Call :=
  | CallRequestPermission (now : Z) (t : string)
  | CallSetPermission (now : Z) (t : string) (a : bool) (r : option string)
  | CallSetMode (modeName : string)
  | CallClearExpiredPermissions (now : Z) (timeout : Z).

Definition perform (c : Call) (pm : ToolPermissionManager) : ToolPermissionManager :=
  match c with
  | CallRequestPermission now t => (requestPermission now t pm).2
  | CallSetPermission now t a r => setPermission now t a r pm
  | CallSetMode modeName => setMode modeName pm
  | CallClearExpiredPermissions now timeout => clearExpiredPermissions now timeout pm
  end.

(** The states a manager built by the constructor can be in. *)
Inductive reachable : ToolPermissionManager -> Prop :=
  | reachable_new : reachable new
  | reachable_perform c pm : reachable pm -> reachable (perform c pm).

(** The tools the modes [default] and [accept_edits] approve. *)
Definition readOnlyTools : list string := ["read_file"; "glob"; "search"].

(** [t] or the wildcard is in the (possibly absent) list [a]. *)
Definition listed (t : string) (a : option (list string)) : Prop :=
  exists l, a = Some l /\ ("*" ∈ l \/ t ∈ l).

End Permission.

(** * Session store (session-manager.ts, class SessionManager) *)

Module Session.

(** Values held in session metadata ([Map<string, any>]). *)
Inductive Value :=
  | VStr (s : string)
  | VNum (n : Z)
  | VBool (b : bool)
  | VNull.

(** What one call reads from its environment: the clock, the identifier
    generator and the process working directory. *)
Record Env := {
  now : Z;
  uuid : string;
  cwd : string;
}.

Record SessionConfig := {
  cfg_id : option string;
  cfg_mode : option string;
  cfg_workingDirectory : option string;
  cfg_permissionMode : option string;
  cfg_timeout : option Z;
  cfg_maxToolCalls : option Z;
}.

Definition emptyConfig : SessionConfig :=
  {| cfg_id := None; cfg_mode := None; cfg_workingDirectory := None;
     cfg_permissionMode := None; cfg_timeout := None; cfg_maxToolCalls := None |}.

(** A [Map] object lives in the object store and is held by reference:
    [{ ...session }] copies the reference, not the entries. *)
Definition loc := nat.

Record SessionState := {
  id : string;
  mode : string;
  workingDirectory : string;
  permissionMode : string;
  createdAt : Z;
  lastActivity : Z;
  toolCallCount : Z;
  isActive : bool;
  metadata : loc;
}.

Inductive EventType := created | updated | destroyed | timeout | mode_changed.

(** The [data] payload of a session event, as the object stands when the
    event is emitted. *)
Inductive EventData :=
  | DSession (session : SessionState) (imported : bool)
  | DChanges (changes : list string)
  | DModeChanged (oldMode newMode : string)
  | DExpired (expiredSessions : list string).

Record SessionEvent := {
  type : EventType;
  sessionId : string;
  timestamp : Z;
  data : EventData;
}.

Record SessionManager := {
  sessions : gmap string SessionState;
  mapObjects : list (gmap string Value);
  permissionManager : Permission.ToolPermissionManager;
  emitted : list SessionEvent;
  defaultSessionTimeout : Z;
  maxSessions : nat;
}.

(** The plain object of [exportSession]; also the [any] argument of
    [importSession], whose fields may each be absent. [exportSession] does
    not write [isActive]; an argument of [importSession] may carry it. *)
Record SessionData := {
  sd_id : option string;
  sd_mode : option string;
  sd_workingDirectory : option string;
  sd_permissionMode : option string;
  sd_createdAt : option Z;
  sd_lastActivity : option Z;
  sd_toolCallCount : option Z;
  sd_isActive : option bool;
  sd_metadata : option (gmap string Value);
}.

(** The snapshot [d] carrying [isActive: flag] (or not carrying it). *)
Definition set_sd_isActive (flag : option bool) (d : SessionData) : SessionData :=
  {| sd_id := sd_id d; sd_mode := sd_mode d;
     sd_workingDirectory := sd_workingDirectory d;
     sd_permissionMode := sd_permissionMode d; sd_createdAt := sd_createdAt d;
     sd_lastActivity := sd_lastActivity d;
     sd_toolCallCount := sd_toolCallCount d; sd_isActive := flag;
     sd_metadata := sd_metadata d |}.

Inductive SessionError :=
  | MaximumSessionLimit (limit : nat).

Inductive Outcome (A : Type) :=
  | Returned (a : A)
  | Thrown (e : SessionError).
Arguments Returned {A} a.
Arguments Thrown {A} e.

(** The constructor. *)
Definition new : SessionManager :=
  {| sessions := ∅; mapObjects := []; permissionManager := Permission.new;
     emitted := []; defaultSessionTimeout := 1800000; maxSessions := 100 |}.

(** *** Field updates *)

Definition with_sessions (f : gmap string SessionState -> gmap string SessionState)
    (st : SessionManager) : SessionManager :=
  {| sessions := f (sessions st); mapObjects := mapObjects st;
     permissionManager := permissionManager st; emitted := emitted st;
     defaultSessionTimeout := defaultSessionTimeout st;
     maxSessions := maxSessions st |}.

Definition with_mapObjects (f : list (gmap string Value) -> list (gmap string Value))
    (st : SessionManager) : SessionManager :=
  {| sessions := sessions st; mapObjects := f (mapObjects st);
     permissionManager := permissionManager st; emitted := emitted st;
     defaultSessionTimeout := defaultSessionTimeout st;
     maxSessions := maxSessions st |}.

Definition with_permissionManager
    (f : Permission.ToolPermissionManager -> Permission.ToolPermissionManager)
    (st : SessionManager) : SessionManager :=
  {| sessions := sessions st; mapObjects := mapObjects st;
     permissionManager := f (permissionManager st); emitted := emitted st;
     defaultSessionTimeout := defaultSessionTimeout st;
     maxSessions := maxSessions st |}.

(** [this.emit('session_event', e)] *)
Definition emit (e : SessionEvent) (st : SessionManager) : SessionManager :=
  {| sessions := sessions st; mapObjects := mapObjects st;
     permissionManager := permissionManager st; emitted := (emitted st ++ [e])%list;
     defaultSessionTimeout := defaultSessionTimeout st;
     maxSessions := maxSessions st |}.

Definition set_lastActivity (t : Z) (s : SessionState) : SessionState :=
  {| id := id s; mode := mode s; workingDirectory := workingDirectory s;
     permissionMode := permissionMode s; createdAt := createdAt s;
     lastActivity := t; toolCallCount := toolCallCount s;
     isActive := isActive s; metadata := metadata s |}.

Definition set_isActive (b : bool) (s : SessionState) : SessionState :=
  {| id := id s; mode := mode s; workingDirectory := workingDirectory s;
     permissionMode := permissionMode s; createdAt := createdAt s;
     lastActivity := lastActivity s; toolCallCount := toolCallCount s;
     isActive := b; metadata := metadata s |}.

Definition set_toolCallCount (n : Z) (s : SessionState) : SessionState :=
  {| id := id s; mode := mode s; workingDirectory := workingDirectory s;
     permissionMode := permissionMode s; createdAt := createdAt s;
     lastActivity := lastActivity s; toolCallCount := n;
     isActive := isActive s; metadata := metadata s |}.

Definition set_mode (m : string) (s : SessionState) : SessionState :=
  {| id := id s; mode := m; workingDirectory := workingDirectory s;
     permissionMode := permissionMode s; createdAt := createdAt s;
     lastActivity := lastActivity s; toolCallCount := toolCallCount s;
     isActive := isActive s; metadata := metadata s |}.

Definition set_workingDirectory (d : string) (s : SessionState) : SessionState :=
  {| id := id s; mode := mode s; workingDirectory := d;
     permissionMode := permissionMode s; createdAt := createdAt s;
     lastActivity := lastActivity s; toolCallCount := toolCallCount s;
     isActive := isActive s; metadata := metadata s |}.

Definition set_permissionMode (p : string) (s : SessionState) : SessionState :=
  {| id := id s; mode := mode s; workingDirectory := workingDirectory s;
     permissionMode := p; createdAt := createdAt s;
     lastActivity := lastActivity s; toolCallCount := toolCallCount s;
     isActive := isActive s; metadata := metadata s |}.

(** *** [Map] objects *)

(** [new Map(entries)]: a later entry for a key overwrites an earlier one. *)
Definition Map_of_entries (l : list (string * Value)) : gmap string Value :=
  foldl (fun m kv => <[kv.1 := kv.2]> m) ∅ l.

(** [Object.fromEntries(map)] and [Object.entries(obj)]. *)
Definition Object_fromEntries (m : gmap string Value) : gmap string Value :=
  Map_of_entries (map_to_list m).
Definition Object_entries (o : gmap string Value) : list (string * Value) :=
  map_to_list o.

(** Allocation of a [Map] object holding [m]; answers its reference. *)
Definition alloc (m : gmap string Value) (st : SessionManager)
    : loc * SessionManager :=
  (length (mapObjects st), with_mapObjects (fun h => (h ++ [m])%list) st).

(** The entries of the [Map] object at [l]. *)
Definition deref (l : loc) (st : SessionManager) : gmap string Value :=
  default ∅ (mapObjects st !! l).

(** [m.set(key, value)] on the [Map] object at [l], by whoever holds [l]. *)
Definition Map_set (l : loc) (key : string) (value : Value)
    (st : SessionManager) : SessionManager :=
  with_mapObjects (alter (fun m => <[key := value]> m) l) st.

(** [m.delete(key)] on the [Map] object at [l]. *)
Definition Map_delete (l : loc) (key : string) (st : SessionManager)
    : SessionManager :=
  with_mapObjects (alter (fun m => delete key m) l) st.

(** *** Operations *)

(** [this.sessions.size >= this.maxSessions] *)
Definition atCapacity (st : SessionManager) : bool :=
  bool_decide (maxSessions st ≤ size (sessions st))%nat.

(** [!session.isActive || (now - session.lastActivity) >= timeout] *)
Definition isExpired (t : Z) (limit : Z) (s : SessionState) : bool :=
  negb (isActive s) || bool_decide (limit ≤ t - lastActivity s)%Z.

Definition destroySession (e : Env) (sid : string) (st : SessionManager)
    : bool * SessionManager :=
  match sessions st !! sid with
  | None => (false, st)
  | Some session =>
      let session := set_isActive false session in
      (true,
       emit {| type := destroyed; sessionId := sid; timestamp := now e;
               data := DSession session false |}
         (with_sessions (delete sid) st))
  end.

(** The identifiers collected by the first loop of
    [cleanupExpiredSessions]; the [Map] is traversed in the order of
    [map_to_list], which need not be the order in which the [Map] of the
    code holds them: what is stated of this list is stated of its
    members and of their number. *)
Definition expiredIds (e : Env) (st : SessionManager) : list string :=
  (filter (fun kv => Is_true (isExpired (now e) (defaultSessionTimeout st) kv.2))
     (map_to_list (sessions st))).*1.

Definition cleanupExpiredSessions (e : Env) (st : SessionManager)
    : nat * SessionManager :=
  let expired := expiredIds e st in
  let st := foldl (fun acc sid => (destroySession e sid acc).2) st expired in
  let st :=
    if bool_decide (0 < length expired)%nat
    then emit {| type := timeout; sessionId := ""; timestamp := now e;
                 data := DExpired expired |} st
    else st in
  (length expired, st).

Definition createSession (e : Env) (config : SessionConfig)
    (st : SessionManager) : Outcome string * SessionManager :=
  let sid := or_str (cfg_id config) (uuid e) in
  let st1 := if atCapacity st then (cleanupExpiredSessions e st).2 else st in
  if atCapacity st && atCapacity st1
  then (Thrown (MaximumSessionLimit (maxSessions st1)), st1)
  else
    let '(m, st2) := alloc ∅ st1 in
    let session :=
      {| id := sid;
         mode := or_str (cfg_mode config) "default";
         workingDirectory := or_str (cfg_workingDirectory config) (cwd e);
         permissionMode := or_str (cfg_permissionMode config) "yolo";
         createdAt := now e;
         lastActivity := now e;
         toolCallCount := 0;
         isActive := true;
         metadata := m |} in
    let st3 := with_sessions <[sid := session]> st2 in
    let st4 := with_permissionManager (Permission.setMode (mode session)) st3 in
    (Returned sid,
     emit {| type := created; sessionId := sid; timestamp := now e;
             data := DSession session false |} st4).

(** [getSession]: the answer is the shallow copy [{ ...session }]. *)
Definition getSession (e : Env) (sid : string) (st : SessionManager)
    : option SessionState * SessionManager :=
  match sessions st !! sid with
  | None => (None, st)
  | Some session =>
      let session := set_lastActivity (now e) session in
      (Some session, with_sessions <[sid := session]> st)
  end.

(** [u && u !== current]: the new value when the field is to be written. *)
Definition changed (u : option string) (current : string) : option string :=
  match u with
  | Some v =>
      if bool_decide (v = "") then None
      else if bool_decide (v = current) then None else Some v
  | None => None
  end.

Definition updateSession (e : Env) (sid : string) (updates : SessionConfig)
    (st : SessionManager) : bool * SessionManager :=
  match sessions st !! sid with
  | None => (false, st)
  | Some session =>
      let oldMode := mode session in
      let '(session, st, changes) :=
        match changed (cfg_mode updates) (mode session) with
        | Some m =>
            (set_mode m session,
             with_permissionManager (Permission.setMode m) st,
             ["mode: " +:+ m])
        | None => (session, st, [])
        end in
      let '(session, changes) :=
        match changed (cfg_workingDirectory updates) (workingDirectory session) with
        | Some d =>
            (set_workingDirectory d session,
             (changes ++ ["workingDirectory: " +:+ d])%list)
        | None => (session, changes)
        end in
      let '(session, changes) :=
        match changed (cfg_permissionMode updates) (permissionMode session) with
        | Some p =>
            (set_permissionMode p session,
             (changes ++ ["permissionMode: " +:+ p])%list)
        | None => (session, changes)
        end in
      let session := set_lastActivity (now e) session in
      let st := with_sessions <[sid := session]> st in
      let st :=
        if bool_decide (0 < length changes)%nat
        then
          let st :=
            emit {| type := updated; sessionId := sid; timestamp := now e;
                    data := DChanges changes |} st in
          if bool_decide (oldMode = mode session) then st
          else emit {| type := mode_changed; sessionId := sid;
                       timestamp := now e;
                       data := DModeChanged oldMode (mode session) |} st
        else st in
      (true, st)
  end.

(** [incrementToolCall]; [toolCallCount++] adds one as long as the count
    stays among the safe integers. *)
Definition incrementToolCall (e : Env) (sid : string) (st : SessionManager)
    : Z * SessionManager :=
  match sessions st !! sid with
  | None => (0, st)
  | Some session =>
      let session := set_toolCallCount (toolCallCount session + 1) session in
      let session := set_lastActivity (now e) session in
      (toolCallCount session, with_sessions <[sid := session]> st)
  end.

Definition checkToolPermission (e : Env) (sid : string) (tool : string)
    (st : SessionManager) : bool * SessionManager :=
  match getSession e sid st with
  | (None, st) => (false, st)
  | (Some _, st) =>
      let '(b, pm) := Permission.requestPermission (now e) tool (permissionManager st) in
      (b, with_permissionManager (fun _ => pm) st)
  end.

Definition listSessions (st : SessionManager) : list SessionState :=
  (map_to_list (sessions st)).*2.

Definition getActiveSessions (st : SessionManager) : list SessionState :=
  filter (fun s => Is_true (isActive s)) (listSessions st).

Definition setSessionMetadata (e : Env) (sid : string) (key : string)
    (value : Value) (st : SessionManager) : bool * SessionManager :=
  match sessions st !! sid with
  | None => (false, st)
  | Some session =>
      let st := Map_set (metadata session) key value st in
      let session := set_lastActivity (now e) session in
      (true, with_sessions <[sid := session]> st)
  end.

Definition getSessionMetadata (e : Env) (sid : string) (key : string)
    (st : SessionManager) : option Value * SessionManager :=
  match getSession e sid st with
  | (None, st) => (None, st)
  | (Some session, st) => (deref (metadata session) st !! key, st)
  end.

Definition getAllSessionMetadata (e : Env) (sid : string)
    (st : SessionManager) : gmap string Value * SessionManager :=
  match getSession e sid st with
  | (None, st) => (∅, st)
  | (Some session, st) => (Object_fromEntries (deref (metadata session) st), st)
  end.

Definition exportSession (e : Env) (sid : string) (st : SessionManager)
    : option SessionData * SessionManager :=
  match getSession e sid st with
  | (None, st) => (None, st)
  | (Some session, st) =>
      (Some {| sd_id := Some (id session);
               sd_mode := Some (mode session);
               sd_workingDirectory := Some (workingDirectory session);
               sd_permissionMode := Some (permissionMode session);
               sd_createdAt := Some (createdAt session);
               sd_lastActivity := Some (lastActivity session);
               sd_toolCallCount := Some (toolCallCount session);
               sd_isActive := None;
               sd_metadata :=
                 Some (Object_fromEntries (deref (metadata session) st)) |},
       st)
  end.

Definition importSession (e : Env) (sessionData : SessionData)
    (st : SessionManager) : string * SessionManager :=
  let sid := or_str (sd_id sessionData) (uuid e) in
  let '(m, st) :=
    alloc (Map_of_entries (Object_entries (default ∅ (sd_metadata sessionData)))) st in
  let session :=
    {| id := sid;
       mode := or_str (sd_mode sessionData) "default";
       workingDirectory := or_str (sd_workingDirectory sessionData) (cwd e);
       permissionMode := or_str (sd_permissionMode sessionData) "yolo";
       createdAt := or_num (sd_createdAt sessionData) (now e);
       lastActivity := or_num (sd_lastActivity sessionData) (now e);
       toolCallCount := or_num (sd_toolCallCount sessionData) 0;
       isActive := true;
       metadata := m |} in
  let st := with_sessions <[sid := session]> st in
  let st := with_permissionManager (Permission.setMode (mode session)) st in
  (sid,
   emit {| type := created; sessionId := sid; timestamp := now e;
           data := DSession session true |} st).

(** [destroyAllSessions]; the identifiers are visited in the order of
    [map_to_list], which need not be the order in which the [Map] of the
    code holds them: the order of the events of this call is not that of
    the code, their number and contents are. *)
Definition destroyAllSessions (e : Env) (st : SessionManager)
    : nat * SessionManager :=
  foldl
    (fun acc sid =>
       let '(b, st) := destroySession e sid acc.2 in
       (if b then S acc.1 else acc.1, st))
    (0%nat, st) (map_to_list (sessions st)).*1.

(** *** Histories of the store *)

(** What can happen to a manager: a call of one of its public methods, a
    tick of the clean-up timer, or a holder of a copy answered by
    [getSession]/[listSessions] writing to the [Map] it references. *)
Inductive Call :=
  | CallCreateSession (config : SessionConfig)
  | CallGetSession (sid : string)
  | CallUpdateSession (sid : string) (updates : SessionConfig)
  | CallDestroySession (sid : string)
  | CallIncrementToolCall (sid : string)
  | CallCheckToolPermission (sid tool : string)
  | TimerCleanup
  | CallSetSessionMetadata (sid key : string) (value : Value)
  | CallGetSessionMetadata (sid key : string)
  | CallGetAllSessionMetadata (sid : string)
  | CallExportSession (sid : string)
  | CallImportSession (sessionData : SessionData)
  | CallDestroyAllSessions
  | HolderMapSet (l : loc) (key : string) (value : Value)
  | HolderMapDelete (l : loc) (key : string).

Definition perform (e : Env) (c : Call) (st : SessionManager) : SessionManager :=
  match c with
  | CallCreateSession config => (createSession e config st).2
  | CallGetSession sid => (getSession e sid st).2
  | CallUpdateSession sid updates => (updateSession e sid updates st).2
  | CallDestroySession sid => (destroySession e sid st).2
  | CallIncrementToolCall sid => (incrementToolCall e sid st).2
  | CallCheckToolPermission sid tool => (checkToolPermission e sid tool st).2
  | TimerCleanup => (cleanupExpiredSessions e st).2
  | CallSetSessionMetadata sid key value => (setSessionMetadata e sid key value st).2
  | CallGetSessionMetadata sid key => (getSessionMetadata e sid key st).2
  | CallGetAllSessionMetadata sid => (getAllSessionMetadata e sid st).2
  | CallExportSession sid => (exportSession e sid st).2
  | CallImportSession sessionData => (importSession e sessionData st).2
  | CallDestroyAllSessions => (destroyAllSessions e st).2
  | HolderMapSet l key value => Map_set l key value st
  | HolderMapDelete l key => Map_delete l key st
  end.

(** [process.cwd()] answers a non-empty path and [generateSessionId()] a
    non-empty identifier. *)
Definition validEnv (e : Env) : Prop := cwd e ≠ "" ∧ uuid e ≠ "".

(** The states a manager built by the constructor can be in. *)
Inductive reachable : SessionManager -> Prop :=
  | reachable_new : reachable new
  | reachable_perform e c st :
      reachable st -> validEnv e -> reachable (perform e c st).

(** What holds of every session the store keeps under [sid]: it carries
    its key, none of its string fields is empty, and it is active. *)
Definition good (sid : string) (s : SessionState) : Prop :=
  id s = sid /\ sid <> "" /\ mode s <> "" /\ workingDirectory s <> "" /\
  permissionMode s <> "" /\ isActive s = true.

Definition invariant (st : SessionManager) : Prop :=
  map_Forall good (sessions st).

(** Sample values used to run the operations. *)
Definition env0 : Env := {| now := 1000; uuid := "uuid-1"; cwd := "/work" |}.
Definition env1 : Env := {| now := 2000; uuid := "uuid-2"; cwd := "/work" |}.
Definition configWithId (i : string) : SessionConfig :=
  {| cfg_id := Some i; cfg_mode := None; cfg_workingDirectory := None;
     cfg_permissionMode := None; cfg_timeout := None; cfg_maxToolCalls := None |}.

(** A store with one session ["a"] that has made one tool call. *)
Definition oneSession : SessionManager :=
  (incrementToolCall env0 "a" (createSession env0 (configWithId "a") new).2).2.

(** A store filled to the default cap: a hundred sessions ["s0"] to
    ["s99"], all created at time 1000. *)
Definition hundredSessions : SessionManager :=
  foldl
    (fun st n => (createSession env0 (configWithId ("s" +:+ pretty n)) st).2)
    new (seq 0 100).

(** The [destroyed] event of [destroySession] for the session [kv.2]
    stored under [kv.1]. *)
Definition destroyedEvent (e : Env) (kv : string * SessionState) : SessionEvent :=
  {| type := destroyed; sessionId := kv.1; timestamp := now e;
     data := DSession (set_isActive false kv.2) false |}.

(** *** Statistics *)

Record SessionStats := {
  total : nat;
  active : nat;
  expired : nat;
  totalToolCalls : Z;
}.

Definition getSessionStats (e : Env) (st : SessionManager) : SessionStats :=
  let all := listSessions st in
  {| total := length all;
     active :=
       length (filter
         (fun s => Is_true (isActive s
            && bool_decide (now e - lastActivity s < defaultSessionTimeout st)))
         all);
     expired :=
       length (filter
         (fun s => Is_true (negb (isActive s)
            || bool_decide (defaultSessionTimeout st ≤ now e - lastActivity s)))
         all);
     totalToolCalls := foldl (fun sum s => sum + toolCallCount s) 0 all |}.

(** *** The [Map] objects of the stored sessions *)

(** Every stored session references a [Map] object of the store. *)
Definition allocated (st : SessionManager) : Prop :=
  forall k s, sessions st !! k = Some s ->
    (metadata s < length (mapObjects st))%nat.

(** No two stored sessions reference the same [Map] object. *)
Definition unshared (st : SessionManager) : Prop :=
  forall k1 k2 s1 s2,
    sessions st !! k1 = Some s1 -> sessions st !! k2 = Some s2 ->
    metadata s1 = metadata s2 -> k1 = k2.

(** The field [u] of a partial configuration asks for no change of a
    field whose value is [current]: it is absent, empty, or [current]. *)
Definition asksNoChange (u : option string) (current : string) : Prop :=
  u = None \/ u = Some "" \/ u = Some current.

(** [n] calls of [incrementToolCall] for [sid], one after the other. *)
Definition incrementToolCalls (e : Env) (sid : string) (n : nat)
    (st : SessionManager) : SessionManager :=
  Nat.iter n (fun st => (incrementToolCall e sid st).2) st.

(** More sample values. *)
Definition configWithMode (i m : string) : SessionConfig :=
  {| cfg_id := Some i; cfg_mode := Some m; cfg_workingDirectory := None;
     cfg_permissionMode := None; cfg_timeout := None; cfg_maxToolCalls := None |}.

(** A store with the sessions ["a"] (one tool call, default mode) and
    ["b"] (bypass_permissions mode). *)
Definition twoSessions : SessionManager :=
  (createSession env1 (configWithMode "b" "bypass_permissions") oneSession).2.

(** A reading of the environment half an hour and a second after [env0]. *)
Definition envLate : Env := {| now := 1801001; uuid := "uuid-3"; cwd := "/work" |}.

End Session.

(** * Session utilities (session-manager.ts, class SessionUtils) *)

Module SessionUtils.

(** [Math.floor(duration / 60000)]; the quotient of the integers is what
    the code computes for a duration among the safe integers. *)
Definition minutesOf (duration : Z) : Z := duration `div` 60000.

(** [Math.floor((duration % 60000) / 1000)]; [%] truncates towards zero. *)
Definition secondsOf (duration : Z) : Z := (duration `rem` 60000) `div` 1000.

(** [formatSessionDuration]: [`${minutes}m ${seconds}s`]. *)
Definition formatSessionDuration (now : Z) (session : Session.SessionState)
    : string :=
  let duration := now - Session.createdAt session in
  pretty (minutesOf duration) +:+ "m " +:+ pretty (secondsOf duration) +:+ "s".

End SessionUtils.

(** * Tool calls and results (types.ts) *)

Module Types.

(** Values of type [any] carried as tool inputs and contents. *)
#[warnings="-register-all"]
Inductive Json :=
  | JUndefined
  | JNull
  | JBool (b : bool)
  | JNum (n : Z)
  | JStr (s : string)
  | JObj (fields : list (string * Json)).

(** JavaScript truthiness of a value. *)
Definition truthy (v : Json) : bool :=
  match v with
  | JUndefined | JNull => false
  | JBool b => b
  | JNum n => negb (bool_decide (n = 0))
  | JStr s => negb (bool_decide (s = ""))
  | JObj _ => true
  end.

Fixpoint assoc (k : string) (fields : list (string * Json)) : Json :=
  match fields with
  | [] => JUndefined
  | (k', v) :: rest => if bool_decide (k = k') then v else assoc k rest
  end.

(** Property read [v.k] on a truthy value: [undefined] unless [v] is an
    object that has the property. *)
Definition prop (v : Json) (k : string) : Json :=
  match v with
  | JObj fields => assoc k fields
  | _ => JUndefined
  end.

Record KodeToolCall := {
  name : string;
  input : Json;
  id : option string;
}.

(** [type] is always ['tool_result'] and is left out. *)
Record KodeToolResult := {
  content : Json;
  tool_use_id : string;
  is_error : bool;
}.

Record KodeSession := {
  session_id : string;
  workingDirectory : string;
  cancelled : bool;
  permissionMode : string;
}.

End Types.

(** * Tool conversion (tool-converter.ts, class ACPToolConverter) *)

Module ToolConverter.
Import Types.

(** A [transform] answers [None] when the function throws. *)
Record ToolMapping := {
  fromACP : string;
  toKode : string;
  transform : option (Json -> option Json);
  reverseTransform : option (KodeToolResult -> Json);
}.

Definition DEFAULT_TOOL_MAPPINGS : list ToolMapping := [
  {| fromACP := "read_file"; toKode := "FileRead";
     transform := Some (fun input =>
       Some (JObj [("abs_path", prop input "path"); ("file_path", prop input "path")]));
     reverseTransform := None |};
  {| fromACP := "write_file"; toKode := "FileWrite";
     transform := Some (fun input =>
       Some (JObj [("abs_path", prop input "path"); ("file_path", prop input "path");
             ("content", prop input "content")]));
     reverseTransform := None |};
  {| fromACP := "edit_file"; toKode := "FileEdit";
     transform := Some (fun input =>
       Some (JObj [("abs_path", prop input "path"); ("file_path", prop input "path");
             ("old_string", prop input "old_string");
             ("new_string", prop input "new_string")]));
     reverseTransform := None |};
  {| fromACP := "run_command"; toKode := "Bash";
     transform := Some (fun input => Some (JObj [("command", prop input "command")]));
     reverseTransform := None |};
  {| fromACP := "glob"; toKode := "Glob";
     transform := Some (fun input =>
       Some (JObj [("pattern", prop input "pattern"); ("path", prop input "path")]));
     reverseTransform := None |};
  {| fromACP := "search"; toKode := "Grep";
     transform := Some (fun input =>
       Some (JObj [("pattern", prop input "pattern"); ("path", prop input "path")]));
     reverseTransform := None |};
  {| fromACP := "create_task"; toKode := "Task";
     transform := Some (fun input => Some (JObj [("description", prop input "description")]));
     reverseTransform := None |};
  {| fromACP := "web_search"; toKode := "WebSearch";
     transform := Some (fun input => Some (JObj [("query", prop input "query")]));
     reverseTransform := None |};
  {| fromACP := "web_fetch"; toKode := "WebFetch";
     transform := Some (fun input => Some (JObj [("url", prop input "url")]));
     reverseTransform := None |}
].

Record ACPToolConverter := {
  mappings : gmap string ToolMapping;
  reverseMappings : gmap string ToolMapping;
}.

Definition addMapping (mapping : ToolMapping) (c : ACPToolConverter)
    : ACPToolConverter :=
  {| mappings := <[fromACP mapping := mapping]> (mappings c);
     reverseMappings := <[toKode mapping := mapping]> (reverseMappings c) |}.

Definition removeMapping (acpToolName : string) (c : ACPToolConverter)
    : ACPToolConverter :=
  match mappings c !! acpToolName with
  | Some mapping =>
      {| mappings := delete acpToolName (mappings c);
         reverseMappings := delete (toKode mapping) (reverseMappings c) |}
  | None => c
  end.

(** [initializeMappings]: the same two writes as [addMapping], per entry. *)
Definition initializeMappings (ms : list ToolMapping) (c : ACPToolConverter)
    : ACPToolConverter :=
  foldl
    (fun c mapping =>
       {| mappings := <[fromACP mapping := mapping]> (mappings c);
          reverseMappings := <[toKode mapping := mapping]> (reverseMappings c) |})
    c ms.

(** [new ACPToolConverter(mappings = DEFAULT_TOOL_MAPPINGS)] *)
Definition new (ms : list ToolMapping) : ACPToolConverter :=
  initializeMappings ms {| mappings := ∅; reverseMappings := ∅ |}.

Definition defaultToolConverter : ACPToolConverter := new DEFAULT_TOOL_MAPPINGS.

(** The [any] argument of [convertToKode]. *)
Record ACPToolCall := {
  call_name : option string;
  call_input : Json;
  call_id : option string;
}.

(** [convertToKode]; [toolId] is what [generateToolId()] would answer.
    A transform that throws takes the call to the [catch] arm, which
    answers [null]. *)
Definition convertToKode (toolId : string) (toolCall : option ACPToolCall)
    (c : ACPToolConverter) : option KodeToolCall :=
  match toolCall with
  | None => None
  | Some tc =>
      if bool_decide (or_str (call_name tc) "" = "") then None
      else
        match mappings c !! or_str (call_name tc) "" with
        | None => None
        | Some mapping =>
            let arg := if truthy (call_input tc) then call_input tc else JObj [] in
            let input :=
              match transform mapping with
              | Some f => f arg
              | None => Some arg
              end in
            match input with
            | Some input =>
                Some {| name := toKode mapping;
                        input := input;
                        id := Some (or_str (call_id tc) toolId) |}
            | None => None
            end
        end
  end.

(** The transform of [mapping], if it has one, throws on no input. *)
Definition neverThrows (mapping : ToolMapping) : Prop :=
  forall f arg, transform mapping = Some f -> is_Some (f arg).

(** One operation of a sequence of index updates. *)
Inductive Mutation :=
  | Add (mapping : ToolMapping)
  | Remove (acpToolName : string).

Definition mutate (c : ACPToolConverter) (m : Mutation) : ACPToolConverter :=
  match m with
  | Add mapping => addMapping mapping c
  | Remove n => removeMapping n c
  end.

(** Every forward entry has its inverse entry ... *)
Definition forward_has_inverse (c : ACPToolConverter) : Prop :=
  forall ext m, mappings c !! ext = Some m ->
    exists m', reverseMappings c !! toKode m = Some m' /\ fromACP m' = ext.

(** ... and every inverse entry has its forward entry. *)
Definition inverse_has_forward (c : ACPToolConverter) : Prop :=
  forall int m, reverseMappings c !! int = Some m ->
    exists m', mappings c !! fromACP m = Some m' /\ toKode m' = int.

Definition consistent (c : ACPToolConverter) : Prop :=
  forward_has_inverse c /\ inverse_has_forward c.

(** The mappings of [ms] can be registered one after the other on [c],
    each under two names that are unused when its turn comes. *)
Fixpoint registrable (ms : list ToolMapping) (c : ACPToolConverter) : Prop :=
  match ms with
  | [] => True
  | mapping :: ms =>
      mappings c !! fromACP mapping = None /\
      reverseMappings c !! toKode mapping = None /\
      registrable ms (addMapping mapping c)
  end.

(** [getSupportedTools]; the [Map] is traversed in the order of
    [map_to_list]. *)
Definition getSupportedTools (c : ACPToolConverter) : list string :=
  (map_to_list (mappings c)).*1.

(** Each registration of the sequence [ms], run from [c], uses two names
    that are unused when its turn comes; removals are free. *)
Fixpoint registersFresh (ms : list Mutation) (c : ACPToolConverter) : Prop :=
  match ms with
  | [] => True
  | m :: ms =>
      match m with
      | Add mapping =>
          mappings c !! fromACP mapping = None /\
          reverseMappings c !! toKode mapping = None
      | Remove _ => True
      end /\ registersFresh ms (mutate c m)
  end.

(** A mapping for a tool the default table does not have. *)
Definition listDirectory : ToolMapping :=
  {| fromACP := "list_directory"; toKode := "LS";
     transform := None; reverseTransform := None |}.

(** A re-registration of ['read_file'] under another internal name. *)
Definition readFileAsReader : ToolMapping :=
  {| fromACP := "read_file"; toKode := "Reader";
     transform := None; reverseTransform := None |}.

End ToolConverter.

(** * Model registry and dispatch (multi-model.ts, class MultiModelManager) *)

Module MultiModel.

Record Cost := {
  cost_input : Q;
  cost_output : Q;
  currency : string;
}.

Record ModelProfile := {
  name : string;
  provider : string;
  model : string;
  apiKey : option string;
  baseUrl : option string;
  maxTokens : option Z;
  temperature : option Q;
  contextWindow : option Z;
  cost : option Cost;
}.

Record ModelPointers := {
  main : string;
  task : string;
  reasoning : string;
  quick : string;
}.

(** [keyof ModelPointers] *)
Inductive Purpose := ForMain | ForTask | ForReasoning | ForQuick.

(** [this.modelPointers[purpose]] *)
Definition pointer (ps : ModelPointers) (p : Purpose) : string :=
  match p with
  | ForMain => main ps
  | ForTask => task ps
  | ForReasoning => reasoning ps
  | ForQuick => quick ps
  end.

Record Options := {
  opt_temperature : option Q;
  opt_maxTokens : option Z;
  systemPrompt : option string;
}.

Record MultiModelManager := {
  modelProfiles : gmap string ModelProfile;
  modelPointers : ModelPointers;
  currentModel : string;
}.

Definition profile (n p m : string) (tokens : Z) : ModelProfile :=
  {| name := n; provider := p; model := m; apiKey := None; baseUrl := None;
     maxTokens := Some tokens; temperature := Some (3 # 10)%Q;
     contextWindow := Some tokens; cost := None |}.

Definition defaultModels : list ModelProfile := [
  profile "claude-sonnet" "anthropic" "claude-3-sonnet-20240229" 200000;
  profile "claude-haiku" "anthropic" "claude-3-haiku-20240307" 200000;
  profile "gpt-4" "openai" "gpt-4" 128000;
  profile "gpt-4o" "openai" "gpt-4o" 128000;
  profile "qwen-coder" "alibaba" "qwen-coder-plus" 32000;
  profile "gemini-pro" "google" "gemini-1.5-pro" 2097152
].

(** The constructor, [initializeDefaultModels] included. *)
Definition new : MultiModelManager :=
  {| modelProfiles := foldl (fun acc m => <[name m := m]> acc) ∅ defaultModels;
     modelPointers := {| main := "claude-sonnet"; task := "qwen-coder";
                         reasoning := "gpt-4"; quick := "claude-haiku" |};
     currentModel := "claude-sonnet" |}.

Definition getModelProfile (n : string) (mm : MultiModelManager)
    : option ModelProfile :=
  modelProfiles mm !! n.

Definition addModelProfile (p : ModelProfile) (mm : MultiModelManager)
    : MultiModelManager :=
  {| modelProfiles := <[name p := p]> (modelProfiles mm);
     modelPointers := modelPointers mm; currentModel := currentModel mm |}.

Definition removeModelProfile (n : string) (mm : MultiModelManager)
    : bool * MultiModelManager :=
  (bool_decide (is_Some (modelProfiles mm !! n)),
   {| modelProfiles := delete n (modelProfiles mm);
      modelPointers := modelPointers mm; currentModel := currentModel mm |}).

Definition setCurrentModel (n : string) (mm : MultiModelManager)
    : bool * MultiModelManager :=
  if bool_decide (is_Some (modelProfiles mm !! n))
  then (true, {| modelProfiles := modelProfiles mm;
                 modelPointers := modelPointers mm; currentModel := n |})
  else (false, mm).

Definition getCurrentModel (mm : MultiModelManager) : string := currentModel mm.

Definition getCurrentModelProfile (mm : MultiModelManager) : option ModelProfile :=
  modelProfiles mm !! currentModel mm.

Definition getAvailableModelNames (mm : MultiModelManager) : list string :=
  (map_to_list (modelProfiles mm)).*1.

Definition getAllModelProfiles (mm : MultiModelManager) : list ModelProfile :=
  (map_to_list (modelProfiles mm)).*2.

(** [Partial<ModelPointers>] *)
Record PointerUpdate := {
  new_main : option string;
  new_task : option string;
  new_reasoning : option string;
  new_quick : option string;
}.

(** [{ ...this.modelPointers, ...pointers }]; no check against the profiles. *)
Definition setModelPointers (u : PointerUpdate) (mm : MultiModelManager)
    : MultiModelManager :=
  {| modelProfiles := modelProfiles mm;
     modelPointers :=
       {| main := default (main (modelPointers mm)) (new_main u);
          task := default (task (modelPointers mm)) (new_task u);
          reasoning := default (reasoning (modelPointers mm)) (new_reasoning u);
          quick := default (quick (modelPointers mm)) (new_quick u) |};
     currentModel := currentModel mm |}.

Definition getModelForPurpose (p : Purpose) (mm : MultiModelManager)
    : option ModelProfile :=
  modelProfiles mm !! pointer (modelPointers mm) p.

(** The double-quote character. *)
Definition dquote : string := String (Ascii.ascii_of_nat 34) EmptyString.

(** [simulateModelCall]; the delay is not modelled. [substring(0, 50)]
    counts UTF-16 code units and the model counts bytes: the two agree on
    the prompts that [isASCII] accepts, and what is stated of the text of
    an answer is stated for these. *)
Definition simulateModelCall (p : ModelProfile) (prompt : string)
    (options : option Options) : string :=
  let quoted := dquote +:+ String.substring 0 50 prompt +:+ "..." +:+ dquote in
  if bool_decide (provider p = "anthropic") then
    "[Claude " +:+ model p +:+ "] I understand your request about: " +:+ quoted
    +:+ " This is a simulated response from the Anthropic API."
  else if bool_decide (provider p = "openai") then
    "[GPT " +:+ model p +:+ "] I received your message: " +:+ quoted
    +:+ " This is a simulated response from the OpenAI API."
  else if bool_decide (provider p = "alibaba") then
    "[Qwen " +:+ model p +:+ "] 我理解您的问题：" +:+ quoted
    +:+ " 这是来自阿里云API的模拟响应。"
  else if bool_decide (provider p = "google") then
    "[Gemini " +:+ model p +:+ "] I've processed your request about: " +:+ quoted
    +:+ " This is a simulated response from Google's API."
  else
    "[" +:+ name p +:+ "] Response to: " +:+ quoted
    +:+ " This is a simulated response.".

(** The settlement of a promise of text: fulfilled, or rejected with the
    message of the error. *)
Inductive Settled :=
  | Fulfilled (text : string)
  | Rejected (message : string).

Definition executeWithModel (prompt : string) (modelName : option string)
    (options : option Options) (mm : MultiModelManager) : Settled :=
  let targetModel := or_str modelName (currentModel mm) in
  match modelProfiles mm !! targetModel with
  | None => Rejected ("Model profile not found: " +:+ targetModel)
  | Some p => Fulfilled (simulateModelCall p prompt options)
  end.

Record Request := {
  prompt : string;
  modelName : option string;
  purpose : option Purpose;
  options : option Options;
}.

Record Entry := {
  entry_model : string;
  response : string;
  error : option string;
}.

(** The name the [try] block of [executeInParallel] resolves for a request. *)
Definition requestedModel (r : Request) (mm : MultiModelManager) : string :=
  or_str (modelName r)
    match purpose r with
    | Some p => pointer (modelPointers mm) p
    | None => currentModel mm
    end.

(** The callback mapped over the requests. *)
Definition settle (mm : MultiModelManager) (r : Request) : Entry :=
  let n := requestedModel r mm in
  match executeWithModel (prompt r) (Some n) (options r) mm with
  | Fulfilled text => {| entry_model := n; response := text; error := None |}
  | Rejected message =>
      {| entry_model := or_str (modelName r) (currentModel mm);
         response := ""; error := Some message |}
  end.

(** [Promise.all(requests.map(...))]: the callbacks only read the manager,
    and [Promise.all] answers the entries in the order of the requests. *)
Definition executeInParallel (requests : list Request) (mm : MultiModelManager)
    : list Entry :=
  settle mm <$> requests.

(** [getModelPointers]: a copy of the pointers. *)
Definition getModelPointers (mm : MultiModelManager) : ModelPointers :=
  modelPointers mm.

Definition switchToModel (p : Purpose) (mm : MultiModelManager)
    : bool * MultiModelManager :=
  let n := pointer (modelPointers mm) p in
  if bool_decide (is_Some (modelProfiles mm !! n))
  then (true, {| modelProfiles := modelProfiles mm;
                 modelPointers := modelPointers mm; currentModel := n |})
  else (false, mm).

(** The object of [exportConfig], and the argument of [importConfig],
    whose fields may each be absent. *)
Record ModelConfig := {
  config_modelProfiles : option (gmap string ModelProfile);
  config_modelPointers : option ModelPointers;
  config_currentModel : option string;
}.

(** [acc[name] = profile] on a plain object: the property [name] is
    written, unless [name] is [__proto__], the accessor of the prototype,
    in which case the object gets no property. *)
Definition assignProperty (acc : gmap string ModelProfile)
    (kv : string * ModelProfile) : gmap string ModelProfile :=
  if bool_decide (kv.1 = "__proto__") then acc else <[kv.1 := kv.2]> acc.

(** [exportConfig]: the profiles are written into a plain object, one
    assignment per entry of the [Map]. *)
Definition exportConfig (mm : MultiModelManager) : ModelConfig :=
  {| config_modelProfiles :=
       Some (foldl assignProperty ∅ (map_to_list (modelProfiles mm)));
     config_modelPointers := Some (modelPointers mm);
     config_currentModel := Some (currentModel mm) |}.

(** [importConfig]: the profiles, when given, replace the ones held; the
    current model is taken over only when it is non-empty and has a
    profile after that. *)
Definition importConfig (c : ModelConfig) (mm : MultiModelManager)
    : MultiModelManager :=
  let profiles :=
    match config_modelProfiles c with
    | Some o => foldl (fun acc kv => <[kv.1 := kv.2]> acc) ∅ (map_to_list o)
    | None => modelProfiles mm
    end in
  let pointers := default (modelPointers mm) (config_modelPointers c) in
  let current :=
    match config_currentModel c with
    | Some n =>
        if negb (bool_decide (n = "")) && bool_decide (is_Some (profiles !! n))
        then n else currentModel mm
    | None => currentModel mm
    end in
  {| modelProfiles := profiles; modelPointers := pointers;
     currentModel := current |}.

(** A request that names its model explicitly. *)
Definition explicitRequest (n : string) : Request :=
  {| prompt := "hi"; modelName := Some n; purpose := None; options := None |}.

(** A request that names its model through the [task] pointer, and a
    manager whose [task] pointer dangles. *)
Definition taskRequest : Request :=
  {| prompt := "hello"; modelName := None; purpose := Some ForTask;
     options := None |}.
Definition danglingTask : MultiModelManager :=
  setModelPointers
    {| new_main := None; new_task := Some "missing"; new_reasoning := None;
       new_quick := None |} new.

End MultiModel.

(** * Protocol router (acp-agent-simple.ts, class KodeAcpAgentSimple) *)

Module Agent.
Import Types.

Record KodeACPConfig := {
  cfg_workingDirectory : option string;
  cfg_permissionMode : option string;
  defaultModel : option string;
  logLevel : option string;
}.

(** The [toolCall] field of a [tool_call] message. *)
Record ToolCallField := {
  tc_name : string;
  tc_input : Json;
  tc_id : option string;
}.

(** [SimpleACPMessage]: the discriminator and the fields the handlers read. *)
Record SimpleACPMessage := {
  type : string;
  sessionId : option string;
  toolCall : option ToolCallField;
  prompt : option string;
  command : option string;
  modelName : option string;
}.

(** What one call reads from its environment. *)
Record Env := {
  uuid : string;
  cwd : string;
}.

(** Calls on the permission policy and on the execution collaborator, in
    the order they are made. *)
Inductive Action :=
  | RequestPermission (toolName : string)
  | ExecuteTool (call : KodeToolCall).

Record KodeAcpAgentSimple := {
  config : KodeACPConfig;
  sessions : gmap string KodeSession;
  multiModelManager : MultiModel.MultiModelManager;
  actions : list Action;
}.

Inductive Response :=
  | error (message : string)
  | initialize_response (protocolVersion : Z) (availableModels : list string)
  | new_session_response (sid : string)
  | prompt_response (sid : string) (text : string) (model : string)
  | tool_call_response (sid : string) (toolCallId : string) (result : KodeToolResult)
  | model_switched (message : string) (currentModel : string)
  | model_not_found (message : string) (availableModels : list string)
  | model_answer (model : string) (response : string)
  | models_response (models : list (string * string * bool)) (currentModel : string).

(** The constructor: defaults, overridden by the fields [c] has. *)
Definition new (e : Env) (c : KodeACPConfig) : KodeAcpAgentSimple :=
  {| config :=
       {| cfg_workingDirectory := Some (default (cwd e) (cfg_workingDirectory c));
          cfg_permissionMode := Some (default "yolo" (cfg_permissionMode c));
          defaultModel := defaultModel c;
          logLevel := Some (default "info" (logLevel c)) |};
     sessions := ∅;
     multiModelManager := MultiModel.new;
     actions := [] |}.

Definition with_sessions (f : gmap string KodeSession -> gmap string KodeSession)
    (a : KodeAcpAgentSimple) : KodeAcpAgentSimple :=
  {| config := config a; sessions := f (sessions a);
     multiModelManager := multiModelManager a; actions := actions a |}.

Definition with_multiModelManager (mm : MultiModel.MultiModelManager)
    (a : KodeAcpAgentSimple) : KodeAcpAgentSimple :=
  {| config := config a; sessions := sessions a;
     multiModelManager := mm; actions := actions a |}.

Definition record (x : Action) (a : KodeAcpAgentSimple) : KodeAcpAgentSimple :=
  {| config := config a; sessions := sessions a;
     multiModelManager := multiModelManager a;
     actions := (actions a ++ [x])%list |}.

Section Router.

(** [KodeIntegration.executeTool]: the result it resolves with, or the
    message of the error it rejects with. *)
Variable executeTool : KodeToolCall -> KodeToolResult + string.

Definition handleInitialize (a : KodeAcpAgentSimple) : Response :=
  initialize_response 1 (MultiModel.getAvailableModelNames (multiModelManager a)).

Definition handleNewSession (e : Env) (a : KodeAcpAgentSimple)
    : Response * KodeAcpAgentSimple :=
  let sid := uuid e in
  let session :=
    {| session_id := sid;
       workingDirectory := or_str (cfg_workingDirectory (config a)) (cwd e);
       cancelled := false;
       permissionMode := or_str (cfg_permissionMode (config a)) "yolo" |} in
  (new_session_response sid, with_sessions <[sid := session]> a).

Definition handlePrompt (m : SimpleACPMessage) (a : KodeAcpAgentSimple)
    : Response :=
  let sid := or_str (sessionId m) "" in
  let text := or_str (prompt m) "" in
  if bool_decide (sid = "") || bool_decide (text = "")
  then error "Missing sessionId or prompt"
  else
    match sessions a !! sid with
    | None => error ("Session not found: " +:+ sid)
    | Some session =>
        if cancelled session then error "Session was cancelled"
        else
          let currentModel :=
            MultiModel.getCurrentModelProfile (multiModelManager a) in
          match MultiModel.executeWithModel text None None (multiModelManager a) with
          | MultiModel.Fulfilled response =>
              let n := or_str (MultiModel.name <$> currentModel) "Unknown" in
              prompt_response sid ("[" +:+ n +:+ "] " +:+ response) n
          | MultiModel.Rejected msg => error ("Model execution failed: " +:+ msg)
          end
    end.

Definition handleToolCall (e : Env) (m : SimpleACPMessage)
    (a : KodeAcpAgentSimple) : Response * KodeAcpAgentSimple :=
  let sid := or_str (sessionId m) "" in
  match toolCall m with
  | None => (error "Missing sessionId or toolCall", a)
  | Some tc =>
      if bool_decide (sid = "") then (error "Missing sessionId or toolCall", a)
      else
        match sessions a !! sid with
        | None => (error ("Session not found: " +:+ sid), a)
        | Some session =>
            let callId := or_str (tc_id tc) (uuid e) in
            let kodeToolCall :=
              {| name := tc_name tc; input := tc_input tc; id := Some callId |} in
            let a := record (ExecuteTool kodeToolCall) a in
            match executeTool kodeToolCall with
            | inl result => (tool_call_response sid callId result, a)
            | inr msg => (error ("Tool call failed: " +:+ msg), a)
            end
        end
  end.

Definition handleModelCommand (m : SimpleACPMessage) (a : KodeAcpAgentSimple)
    : Response * KodeAcpAgentSimple :=
  let mm := multiModelManager a in
  let n := or_str (modelName m) "" in
  match command m with
  | Some "switch" =>
      if negb (bool_decide (n = ""))
         && bool_decide (is_Some (MultiModel.getModelProfile n mm))
      then (model_switched ("Switched to model: " +:+ n) n,
            with_multiModelManager (MultiModel.setCurrentModel n mm).2 a)
      else (model_not_found
              ("Model not found: " +:+ default "undefined" (modelName m))
              (MultiModel.getAvailableModelNames mm), a)
  | Some "ask" =>
      let text := or_str (prompt m) "" in
      if bool_decide (n = "") || bool_decide (text = "")
      then (error "Missing modelName or prompt for ask command", a)
      else
        match MultiModel.getModelProfile n mm with
        | None => (error ("Model not found: " +:+ n), a)
        | Some _ =>
            match MultiModel.executeWithModel text (Some n) None mm with
            | MultiModel.Fulfilled response => (model_answer n response, a)
            | MultiModel.Rejected msg =>
                (error ("Expert model call failed: " +:+ msg), a)
            end
        end
  | other =>
      (error ("Unknown model command: " +:+ default "undefined" other), a)
  end.

Definition handleListModels (a : KodeAcpAgentSimple) : Response :=
  let mm := multiModelManager a in
  let currentModel := MultiModel.getCurrentModel mm in
  models_response
    ((fun p => (MultiModel.name p, MultiModel.provider p,
                bool_decide (MultiModel.name p = currentModel)))
       <$> MultiModel.getAllModelProfiles mm)
    currentModel.

Definition handleMessage (e : Env) (m : SimpleACPMessage)
    (a : KodeAcpAgentSimple) : Response * KodeAcpAgentSimple :=
  match type m with
  | "initialize" => (handleInitialize a, a)
  | "new_session" => handleNewSession e a
  | "prompt" => (handlePrompt m a, a)
  | "tool_call" => handleToolCall e m a
  | "model_command" => handleModelCommand m a
  | "list_models" => (handleListModels a, a)
  | other => (error ("Unknown message type: " +:+ other), a)
  end.

(** Every call of the execution collaborator recorded in [tr] comes after
    a permission request for the tool it executes. *)
Definition gated (tr : list Action) : Prop :=
  forall i call, tr !! i = Some (ExecuteTool call) ->
    exists j, (j < i)%nat /\ tr !! j = Some (RequestPermission (name call)).

End Router.

(** [cleanup]: every session is marked cancelled and the table is
    cleared; the clean-up of the integration is not part of the model. *)
Definition cleanup (a : KodeAcpAgentSimple) : KodeAcpAgentSimple :=
  with_sessions (fun _ => ∅) a.

(** The six message kinds [handleMessage] knows. *)
Definition knownTypes : list string :=
  ["initialize"; "new_session"; "prompt"; "tool_call"; "model_command";
   "list_models"].

(** Sample values used to run the router. *)
Definition env0 : Env := {| uuid := "s-1"; cwd := "/work" |}.
Definition noConfig : KodeACPConfig :=
  {| cfg_workingDirectory := None; cfg_permissionMode := None;
     defaultModel := None; logLevel := None |}.
Definition notImplemented (c : KodeToolCall) : KodeToolResult + string :=
  inl {| content := JStr ("Tool " +:+ name c +:+ " not yet implemented in Kode ACP adapter");
         tool_use_id := default "" (id c); is_error := true |}.
Definition promptMessage (sid text : string) : SimpleACPMessage :=
  {| type := "prompt"; sessionId := Some sid; toolCall := None;
     prompt := Some text; command := None; modelName := None |}.
Definition switchMessage (n : string) : SimpleACPMessage :=
  {| type := "model_command"; sessionId := None; toolCall := None;
     prompt := None; command := Some "switch"; modelName := Some n |}.
Definition toolCallMessage (sid tool : string) : SimpleACPMessage :=
  {| type := "tool_call"; sessionId := Some sid;
     toolCall := Some {| tc_name := tool; tc_input := JObj []; tc_id := Some "c-1" |};
     prompt := None; command := None; modelName := None |}.

End Agent.

(** * Event emitter (event-emitter.ts, class EventEmitter) *)

Module Emitter.
Import Types.

(** A listener is a function object and is compared by reference.
    [Plain f] is a function a caller registers, [f] telling the function
    objects of the callers apart; [OnceWrapper k f] is the [k]-th wrapper
    that [once] has built, around the function [f]. The functions of the
    callers do not call back into the emitter; the wrappers do. *)
Inductive Listener :=
  | Plain (f : nat)
  | OnceWrapper (k : nat) (f : nat).

#[global] Instance Listener_eq_dec : EqDecision Listener.
Proof. solve_decision. Defined.

(** The function of a caller that a listener ends up calling. *)
Definition target (l : Listener) : nat :=
  match l with
  | Plain f => f
  | OnceWrapper _ f => f
  end.

(** The rank of a wrapper among the wrappers built by [once]. *)
Definition rank (l : Listener) : option nat :=
  match l with
  | Plain _ => None
  | OnceWrapper k _ => Some k
  end.

(** [events] is the private [Map]; [wrappers] counts the wrappers built so
    far; [calls] logs the calls of the functions of the callers, with
    their arguments, oldest first. *)
Record EventEmitter := {
  events : gmap string (list Listener);
  wrappers : nat;
  calls : list (nat * list Json);
}.

Definition new : EventEmitter :=
  {| events := ∅; wrappers := 0; calls := [] |}.

Definition with_events (f : gmap string (list Listener) -> gmap string (list Listener))
    (em : EventEmitter) : EventEmitter :=
  {| events := f (events em); wrappers := wrappers em; calls := calls em |}.

(** [listeners(event)]: [this.events.get(event) || []] *)
Definition listeners (event : string) (em : EventEmitter) : list Listener :=
  default [] (events em !! event).

(** [listenerCount(event)]: [this.events.get(event)?.length || 0] *)
Definition listenerCount (event : string) (em : EventEmitter) : nat :=
  length (listeners event em).

(** [eventNames()]; the [Map] is traversed in the order of [map_to_list]. *)
Definition eventNames (em : EventEmitter) : list string :=
  (map_to_list (events em)).*1.

Definition on (event : string) (listener : Listener) (em : EventEmitter)
    : EventEmitter :=
  with_events <[event := (listeners event em ++ [listener])%list]> em.

(** [once]: the wrapper is a new function object. *)
Definition once (event : string) (f : nat) (em : EventEmitter) : EventEmitter :=
  on event (OnceWrapper (wrappers em) f)
    {| events := events em; wrappers := S (wrappers em); calls := calls em |}.

(** [array.indexOf(x)], [None] standing for -1. *)
Fixpoint indexOf (x : Listener) (l : list Listener) : option nat :=
  match l with
  | [] => None
  | y :: l => if decide (x = y) then Some 0%nat else S <$> indexOf x l
  end.

Definition removeListener (event : string) (listener : Listener)
    (em : EventEmitter) : EventEmitter :=
  match events em !! event with
  | None => em
  | Some ls =>
      let ls :=
        match indexOf listener ls with
        | Some index => delete index ls
        | None => ls
        end in
      if bool_decide (length ls = 0)%nat
      then with_events (delete event) em
      else with_events <[event := ls]> em
  end.

Definition off (event : string) (listener : Listener) (em : EventEmitter)
    : EventEmitter :=
  removeListener event listener em.

(** [removeAllListeners(event?)]: an absent or empty name clears the [Map]. *)
Definition removeAllListeners (event : option string) (em : EventEmitter)
    : EventEmitter :=
  if bool_decide (or_str event "" = "")
  then with_events (fun _ => ∅) em
  else with_events (delete (or_str event "")) em.

(** The call [listener(...args)] made by [emit]. A wrapper first removes
    itself, then calls its function. An error thrown by the function is
    caught and logged by [emit], which goes on. *)
Definition invoke (event : string) (args : list Json) (l : Listener)
    (em : EventEmitter) : EventEmitter :=
  let em :=
    match l with
    | Plain _ => em
    | OnceWrapper _ _ => removeListener event l em
    end in
  {| events := events em; wrappers := wrappers em;
     calls := (calls em ++ [(target l, args)])%list |}.

(** The loop [for (const listener of listeners)]: the iterator keeps an
    index into the array, and the array is the one [removeListener]
    splices. [fuel] bounds the number of rounds. *)
Fixpoint emit_loop (event : string) (args : list Json) (fuel : nat)
    (index : nat) (em : EventEmitter) : EventEmitter :=
  match fuel with
  | O => em
  | S fuel =>
      match listeners event em !! index with
      | None => em
      | Some l => emit_loop event args fuel (S index) (invoke event args l em)
      end
  end.

(** [emit]: the array never grows during the loop, so its length at the
    start is fuel enough. *)
Definition emit (event : string) (args : list Json) (em : EventEmitter)
    : bool * EventEmitter :=
  match events em !! event with
  | None => (false, em)
  | Some ls => (true, emit_loop event args (length ls) 0 em)
  end.

(** The listeners one [emit] calls, out of the array [l] it starts with:
    after a wrapper, which removes itself, the iterator steps over the
    listener that has moved into its place. *)
Fixpoint visited (l : list Listener) : list Listener :=
  match l with
  | [] => []
  | x :: r =>
      x :: match x with
           | Plain _ => visited r
           | OnceWrapper _ _ =>
               match r with
               | [] => []
               | _ :: r' => visited r'
               end
           end
  end.

(** The listeners still registered after that [emit]. *)
Fixpoint survivors (l : list Listener) : list Listener :=
  match l with
  | [] => []
  | x :: r =>
      match x with
      | Plain _ => x :: survivors r
      | OnceWrapper _ _ =>
          match r with
          | [] => []
          | y :: r' => y :: survivors r'
          end
      end
  end.

(** What can happen to an emitter. Callers register functions of their
    own. *)
Inductive Call :=
  | CallOn (event : string) (f : nat)
  | CallOnce (event : string) (f : nat)
  | CallEmit (event : string) (args : list Json)
  | CallRemoveListener (event : string) (listener : Listener)
  | CallRemoveAllListeners (event : option string).

Definition perform (c : Call) (em : EventEmitter) : EventEmitter :=
  match c with
  | CallOn event f => on event (Plain f) em
  | CallOnce event f => once event f em
  | CallEmit event args => (emit event args em).2
  | CallRemoveListener event listener => removeListener event listener em
  | CallRemoveAllListeners event => removeAllListeners event em
  end.

Inductive reachable : EventEmitter -> Prop :=
  | reachable_new : reachable new
  | reachable_perform c em : reachable em -> reachable (perform c em).

(** No event is kept with an empty array, and no wrapper is registered
    twice for an event: the ranks of the wrappers of an array are
    distinct and below the number of wrappers built. *)
(** An emitter with a plain listener and a one-shot listener behind it. *)
Definition oneOfEach : EventEmitter :=
  perform (CallOnce "ready" 2) (perform (CallOn "ready" 1) new).

Definition wellFormed (em : EventEmitter) : Prop :=
  forall event ls, events em !! event = Some ls ->
    ls <> [] /\ NoDup (omap rank ls) /\
    Forall (fun l => forall k, rank l = Some k -> (k < wrappers em)%nat) ls.

End Emitter.

(** * Properties of the truthiness helpers *)

Lemma or_str_nonempty o d : d <> "" -> or_str o d <> "".
Proof.
  intros Hd. unfold or_str. destruct o as [s|]; [|exact Hd].
  case_bool_decide; [exact Hd | assumption].
Qed.

Lemma or_str_Some i d : i <> "" -> or_str (Some i) d = i.
Proof. intros Hi. unfold or_str. rewrite bool_decide_eq_false_2; auto. Qed.

Lemma or_num_zero o : or_num o 0 = default 0 o.
Proof.
  unfold or_num. destruct o as [n|]; [|reflexivity].
  case_bool_decide; simpl; congruence.
Qed.

(** * Properties of the permission policy *)

Section PermissionFacts.
Import Permission.

Lemma includes_listed t a :
  includes a "*" || includes a t = true <-> listed t a.
Proof.
  unfold listed, includes. destruct a as [l|]; simpl.
  - rewrite orb_true_iff, !bool_decide_eq_true. split.
    + intros H. exists l. split; [reflexivity | exact H].
    + intros (l' & Hl & H). injection Hl as <-. exact H.
  - split; [discriminate | intros (l' & Hl & _); discriminate].
Qed.

Lemma not_includes_listed t a :
  includes a "*" || includes a t = false <-> ~ listed t a.
Proof.
  rewrite <- includes_listed. destruct (includes a "*" || includes a t); split;
    intros H; try reflexivity; try discriminate; try (intros ?; discriminate).
  exfalso. apply H. reflexivity.
Qed.

Lemma lookup_bypass :
  initializeModes !! "bypass_permissions" =
  Some {| name := "bypass_permissions";
          description := "Auto-approve all operations";
          autoApprove := Some ["*"]; autoDeny := None |}.
Proof. vm_compute. reflexivity. Qed.

Lemma lookup_plan :
  initializeModes !! "plan" =
  Some {| name := "plan";
          description := "Planning mode - no actual operations";
          autoApprove := None; autoDeny := Some ["*"] |}.
Proof. vm_compute. reflexivity. Qed.

Lemma setMode_registered pm n mode :
  modes pm !! n = Some mode ->
  setMode n pm = {| permissions := ∅; currentMode := n; modes := modes pm |}.
Proof.
  intros H. unfold setMode. rewrite bool_decide_eq_true_2; [reflexivity|].
  rewrite H. eexists. reflexivity.
Qed.

Lemma setMode_unregistered pm n :
  modes pm !! n = None -> setMode n pm = pm.
Proof.
  intros H. unfold setMode. rewrite bool_decide_eq_false_2; [reflexivity|].
  rewrite H. intros [? ?]. discriminate.
Qed.

Lemma requestPermission_bypass now t decisions :
  let pm := {| permissions := decisions; currentMode := "bypass_permissions";
               modes := initializeModes |} in
  requestPermission now t pm
  = (true, setPermission now t true (Some "Auto-approved by mode") pm).
Proof.
  intros pm. unfold requestPermission. simpl modes. simpl currentMode.
  rewrite lookup_bypass. reflexivity.
Qed.

Lemma requestPermission_plan now t decisions :
  let pm := {| permissions := decisions; currentMode := "plan";
               modes := initializeModes |} in
  requestPermission now t pm
  = (false, setPermission now t false (Some "Auto-denied by mode") pm).
Proof.
  intros pm. unfold requestPermission. simpl modes. simpl currentMode.
  rewrite lookup_plan. reflexivity.
Qed.

(** C2. [setMode] with a registered name makes it the active mode and
    empties the decision cache; with an unregistered name it leaves the
    manager as it was. With the built-in modes, whatever the decisions and
    the mode before, a tool approved after switching to
    bypass_permissions is denied right after switching to plan, and the
    approval recorded before the switch is gone. *)
Theorem setMode_switches_and_clears :
  (forall pm n,
     match modes pm !! n with
     | Some _ =>
         currentMode (setMode n pm) = n /\
         permissions (setMode n pm) = ∅ /\
         modes (setMode n pm) = modes pm
     | None => setMode n pm = pm
     end) /\
  (forall t now1 now2 decisions active,
     let pm := {| permissions := decisions; currentMode := active;
                  modes := initializeModes |} in
     let approved := requestPermission now1 t (setMode "bypass_permissions" pm) in
     let switched := setMode "plan" approved.2 in
     let denied := requestPermission now2 t switched in
     approved.1 = true /\
     allowed <$> getPermission t approved.2 = Some true /\
     getPermission t switched = None /\
     denied.1 = false /\
     allowed <$> getPermission t denied.2 = Some false).
Proof.
  split.
  - intros pm n. destruct (modes pm !! n) as [mode|] eqn:H.
    + rewrite (setMode_registered _ _ _ H). simpl. auto.
    + apply setMode_unregistered, H.
  - intros t now1 now2 decisions active pm approved switched denied.
    subst approved switched denied pm.
    erewrite setMode_registered by (simpl; apply lookup_bypass).
    rewrite requestPermission_bypass. simpl.
    erewrite setMode_registered by (simpl; apply lookup_plan).
    rewrite requestPermission_plan. unfold getPermission. simpl.
    rewrite !lookup_insert_eq, lookup_empty. simpl. auto.
Qed.

Lemma getPermission_setPermission now t a r pm :
  getPermission t (setPermission now t a r pm)
  = Some {| toolName := t; allowed := a; reason := r; timestamp := now |}.
Proof. unfold getPermission, setPermission. simpl. apply lookup_insert_eq. Qed.

Lemma getPermission_setPermission_other now t t' a r pm :
  t' <> t ->
  getPermission t' (setPermission now t a r pm) = getPermission t' pm.
Proof.
  intros Hne. unfold getPermission, setPermission. simpl.
  apply lookup_insert_ne. congruence.
Qed.

(** C3, with the reasons as the source spells them. For an active mode
    that is registered, [requestPermission t] answers [true] and records
    "Auto-approved by mode" when [t] or the wildcard is in [autoApprove];
    otherwise answers [false] and records "Auto-denied by mode" when [t] or
    the wildcard is in [autoDeny]; otherwise answers [false] and records
    "Requires explicit approval". The decision recorded for [t] carries the
    time of the call, and nothing else of the manager changes. *)
Theorem requestPermission_decides now t pm mode :
  modes pm !! currentMode pm = Some mode ->
  let r := requestPermission now t pm in
  let decision a why :=
    Some {| toolName := t; allowed := a; reason := Some why; timestamp := now |} in
  (listed t (autoApprove mode) ->
     r.1 = true /\ getPermission t r.2 = decision true "Auto-approved by mode") /\
  (~ listed t (autoApprove mode) -> listed t (autoDeny mode) ->
     r.1 = false /\ getPermission t r.2 = decision false "Auto-denied by mode") /\
  (~ listed t (autoApprove mode) -> ~ listed t (autoDeny mode) ->
     r.1 = false /\
     getPermission t r.2 = decision false "Requires explicit approval") /\
  (exists d, getPermission t r.2 = Some d /\ timestamp d = now) /\
  currentMode r.2 = currentMode pm /\
  modes r.2 = modes pm /\
  (forall t', t' <> t -> getPermission t' r.2 = getPermission t' pm).
Proof.
  intros Hmode r decision. subst r decision.
  unfold requestPermission. rewrite Hmode.
  destruct (includes (autoApprove mode) "*" || includes (autoApprove mode) t) eqn:Ha;
    [ apply includes_listed in Ha
    | apply not_includes_listed in Ha;
      destruct (includes (autoDeny mode) "*" || includes (autoDeny mode) t) eqn:Hd;
      [ apply includes_listed in Hd | apply not_includes_listed in Hd ] ].
  all: cbn [fst snd]; rewrite getPermission_setPermission.
  all: repeat split; try tauto; eauto.
  all: intros t' Hne; apply getPermission_setPermission_other, Hne.
Qed.

(** The hypothesis of [requestPermission_decides] is met by the manager the
    constructor builds; ['read_file'] is then approved. *)
Lemma requestPermission_decides_witness :
  modes new !! currentMode new =
    Some {| name := "default"; description := "Manual approval for all tools";
            autoApprove := Some ["read_file"; "glob"; "search"];
            autoDeny := Some ["run_command"; "edit_file"; "write_file"] |} /\
  (requestPermission 5 "read_file" new).1 = true.
Proof.
  split; [vm_compute; reflexivity|].
  refine (proj1 (proj1 (requestPermission_decides 5 "read_file" new _ _) _)).
  - vm_compute. reflexivity.
  - eexists. split; [reflexivity|]. right. apply list_elem_of_here.
Defined.

(** C3 as worded does not hold: the reason recorded for an auto-approved
    tool is "Auto-approved by mode", with a capital, and not
    "auto-approved by mode". *)
Lemma requestPermission_reason_not_lowercase :
  let r := requestPermission 5 "read_file" new in
  r.1 = true /\
  reason <$> getPermission "read_file" r.2 = Some (Some "Auto-approved by mode") /\
  bool_decide (reason <$> getPermission "read_file" r.2
               = Some (Some "auto-approved by mode")) = false.
Proof. vm_compute. auto. Qed.

End PermissionFacts.

(** * Properties of the session store *)

Section SessionFacts.
Import Session.

Lemma changed_Some u current v : changed u current = Some v -> v <> "".
Proof.
  unfold changed. destruct u as [w|]; [|discriminate].
  repeat case_bool_decide; try discriminate. congruence.
Qed.

(** *** [Map] objects and plain objects *)

Lemma foldl_insert_union (l : list (string * Value)) (m0 : gmap string Value) :
  NoDup l.*1 ->
  foldl (fun m kv => <[kv.1 := kv.2]> m) m0 l = list_to_map l ∪ m0.
Proof.
  revert m0. induction l as [|[k v] l IH]; intros m0 Hnd; simpl.
  - symmetry. apply (left_id_L ∅ (∪)).
  - inversion Hnd as [|? ? Hk Hl]; subst.
    rewrite IH by assumption.
    rewrite <- insert_union_r by (apply not_elem_of_list_to_map_1, Hk).
    apply insert_union_l.
Qed.

Lemma Map_of_entries_to_list m : Map_of_entries (map_to_list m) = m.
Proof.
  unfold Map_of_entries. rewrite foldl_insert_union by apply NoDup_fst_map_to_list.
  rewrite list_to_map_to_list. apply (right_id_L ∅ (∪)).
Qed.

Lemma Object_fromEntries_id m : Object_fromEntries m = m.
Proof. apply Map_of_entries_to_list. Qed.

Lemma Map_of_Object_entries o : Map_of_entries (Object_entries o) = o.
Proof. apply Map_of_entries_to_list. Qed.

Lemma deref_alloc m st : deref (alloc m st).1 (alloc m st).2 = m.
Proof.
  unfold deref, alloc. simpl. rewrite list_lookup_middle; reflexivity.
Qed.

Lemma deref_alloc_old m st l :
  (l < length (mapObjects st))%nat -> deref l (alloc m st).2 = deref l st.
Proof.
  intros Hl. unfold deref, alloc. simpl. rewrite lookup_app_l; auto.
Qed.

(** *** The sweep *)

Lemma destroySession_sessions e sid st :
  sessions (destroySession e sid st).2 = delete sid (sessions st).
Proof.
  unfold destroySession. destruct (sessions st !! sid) eqn:H; simpl.
  - reflexivity.
  - symmetry. apply delete_id, H.
Qed.

Lemma destroySession_frame e sid st :
  let st' := (destroySession e sid st).2 in
  mapObjects st' = mapObjects st /\
  permissionManager st' = permissionManager st /\
  defaultSessionTimeout st' = defaultSessionTimeout st /\
  maxSessions st' = maxSessions st.
Proof.
  unfold destroySession. destruct (sessions st !! sid); simpl; auto.
Qed.

Lemma destroy_each_sessions e ids st :
  sessions (foldl (fun acc sid => (destroySession e sid acc).2) st ids)
  = foldl (fun m sid => delete sid m) (sessions st) ids.
Proof.
  revert st. induction ids as [|sid ids IH]; intros st; simpl; [reflexivity|].
  rewrite IH, destroySession_sessions. reflexivity.
Qed.

Lemma destroy_each_frame e ids st :
  let st' := foldl (fun acc sid => (destroySession e sid acc).2) st ids in
  mapObjects st' = mapObjects st /\
  permissionManager st' = permissionManager st /\
  defaultSessionTimeout st' = defaultSessionTimeout st /\
  maxSessions st' = maxSessions st.
Proof.
  revert st. induction ids as [|sid ids IH]; intros st; simpl; [auto|].
  destruct (IH (destroySession e sid st).2) as (-> & -> & -> & ->).
  apply destroySession_frame.
Qed.

Lemma lookup_delete_each (m : gmap string SessionState) ids k :
  foldl (fun m sid => delete sid m) m ids !! k
  = if decide (k ∈ ids) then None else m !! k.
Proof.
  revert m. induction ids as [|sid ids IH]; intros m; simpl.
  - destruct (decide (k ∈ [])) as [Hin|_]; [|reflexivity].
    exfalso. revert Hin. apply not_elem_of_nil.
  - rewrite IH. destruct (decide (k ∈ ids)) as [Hin|Hnin].
    + destruct (decide (k ∈ sid :: ids)) as [_|Hn]; [reflexivity|].
      exfalso. apply Hn. right. exact Hin.
    + destruct (decide (k ∈ sid :: ids)) as [Hin|Hn].
      * apply elem_of_cons in Hin as [->|Hin]; [|contradiction].
        apply lookup_delete_eq.
      * apply lookup_delete_ne. intros ->. apply Hn. left.
Qed.

Lemma elem_of_expiredIds e st k :
  k ∈ expiredIds e st <->
  exists s, sessions st !! k = Some s /\
            isExpired (now e) (defaultSessionTimeout st) s = true.
Proof.
  unfold expiredIds. rewrite list_elem_of_fmap. split.
  - intros ([k' s] & -> & Hin). apply list_elem_of_filter in Hin as [Hexp Hin].
    apply elem_of_map_to_list in Hin. exists s. split; [exact Hin|].
    apply Is_true_true, Hexp.
  - intros (s & Hs & Hexp). exists (k, s). split; [reflexivity|].
    apply list_elem_of_filter. split.
    + apply Is_true_true, Hexp.
    + apply elem_of_map_to_list, Hs.
Qed.

Lemma cleanup_sessions e st :
  sessions (cleanupExpiredSessions e st).2
  = filter (fun kv => ~ Is_true (isExpired (now e) (defaultSessionTimeout st) kv.2))
      (sessions st).
Proof.
  unfold cleanupExpiredSessions. simpl.
  match goal with
  | |- sessions (if ?b then emit _ ?x else ?x) = _ =>
      replace (sessions (if b then emit _ x else x)) with (sessions x)
        by (destruct b; reflexivity)
  end.
  rewrite destroy_each_sessions. apply map_eq. intros k.
  rewrite lookup_delete_each, map_lookup_filter.
  destruct (decide (k ∈ expiredIds e st)) as [Hin|Hnin].
  - apply elem_of_expiredIds in Hin as (s & Hs & Hexp).
    rewrite Hs. simpl. rewrite option_guard_False; [reflexivity|].
    simpl. rewrite Hexp. intros H. apply H. exact I.
  - destruct (sessions st !! k) as [s|] eqn:Hs; simpl; [|reflexivity].
    rewrite option_guard_True; [reflexivity|].
    simpl. intros Hexp. apply Hnin, elem_of_expiredIds.
    exists s. split; [exact Hs | apply Is_true_true, Hexp].
Qed.

Lemma cleanup_frame e st :
  let st' := (cleanupExpiredSessions e st).2 in
  mapObjects st' = mapObjects st /\
  permissionManager st' = permissionManager st /\
  defaultSessionTimeout st' = defaultSessionTimeout st /\
  maxSessions st' = maxSessions st.
Proof.
  unfold cleanupExpiredSessions. simpl.
  destruct (destroy_each_frame e (expiredIds e st) st) as (H1 & H2 & H3 & H4).
  case_bool_decide; simpl; auto.
Qed.



(** *** Capacity *)



(** *** Identifier collisions *)

Lemma createSession_below_cap e config st :
  (size (sessions st) < maxSessions st)%nat ->
  createSession e config st =
  let sid := or_str (cfg_id config) (uuid e) in
  let session :=
    {| id := sid;
       mode := or_str (cfg_mode config) "default";
       workingDirectory := or_str (cfg_workingDirectory config) (cwd e);
       permissionMode := or_str (cfg_permissionMode config) "yolo";
       createdAt := now e; lastActivity := now e; toolCallCount := 0;
       isActive := true; metadata := length (mapObjects st) |} in
  (Returned sid,
   emit {| type := created; sessionId := sid; timestamp := now e;
           data := DSession session false |}
     (with_permissionManager (Permission.setMode (mode session))
        (with_sessions <[sid := session]> (alloc ∅ st).2))).
Proof.
  intros Hlt. unfold createSession, atCapacity.
  rewrite bool_decide_eq_false_2 by lia. reflexivity.
Qed.

(** C5, as the code has it. [createSession] has no collision error: with
    the store below the cap, a call that supplies the identifier of a live
    session returns that identifier and replaces the session by a freshly
    initialised one, whose metadata is a [Map] allocated by the call and
    empty, the [Map] objects there were being left as they are; the store
    keeps its size and its other sessions. *)
Theorem createSession_replaces_live_session e config st i old :
  cfg_id config = Some i -> i <> "" ->
  sessions st !! i = Some old ->
  (size (sessions st) < maxSessions st)%nat ->
  let r := createSession e config st in
  r.1 = Returned i /\
  sessions r.2 !! i =
    Some {| id := i;
            mode := or_str (cfg_mode config) "default";
            workingDirectory := or_str (cfg_workingDirectory config) (cwd e);
            permissionMode := or_str (cfg_permissionMode config) "yolo";
            createdAt := now e; lastActivity := now e; toolCallCount := 0;
            isActive := true; metadata := length (mapObjects st) |} /\
  mapObjects r.2 = (mapObjects st ++ [∅])%list /\
  deref (length (mapObjects st)) r.2 = ∅ /\
  (forall l, (l < length (mapObjects st))%nat -> deref l r.2 = deref l st) /\
  size (sessions r.2) = size (sessions st) /\
  (forall j, j <> i -> sessions r.2 !! j = sessions st !! j).
Proof.
  intros Hid Hi Hold Hlt r. subst r.
  rewrite (createSession_below_cap _ _ _ Hlt). rewrite Hid, (or_str_Some _ _ Hi).
  simpl. split; [reflexivity|]. split; [apply lookup_insert_eq|].
  split; [reflexivity|]. split; [|split; [|split]].
  - unfold deref. simpl. rewrite list_lookup_middle by reflexivity. reflexivity.
  - intros l Hl. unfold deref. simpl. rewrite lookup_app_l by exact Hl.
    reflexivity.
  - apply map_size_insert_Some. rewrite Hold. eexists. reflexivity.
  - intros j Hj. apply lookup_insert_ne. congruence.
Qed.

(** The hypotheses of [createSession_replaces_live_session] are met by a
    second creation under the identifier ["a"]. *)
Lemma createSession_replaces_live_session_witness :
  sessions oneSession !! "a" =
    Some {| id := "a"; mode := "default"; workingDirectory := "/work";
            permissionMode := "yolo"; createdAt := 1000; lastActivity := 1000;
            toolCallCount := 1; isActive := true; metadata := 0%nat |} /\
  (createSession env1 (configWithId "a") oneSession).1 = Returned "a".
Proof.
  split; [vm_compute; reflexivity|].
  refine (proj1 (createSession_replaces_live_session env1 (configWithId "a")
                   oneSession "a" _ eq_refl _ _ _)).
  - discriminate.
  - vm_compute. reflexivity.
  - vm_compute. lia.
Defined.

(** C5 as worded does not hold: a second [createSession] with the same
    explicit identifier, below the cap, returns the identifier and the
    first session (one tool call made) is replaced by a new one. *)
Lemma createSession_same_id_does_not_fail :
  let r := createSession env1 (configWithId "a") oneSession in
  toolCallCount <$> sessions oneSession !! "a" = Some 1 /\
  r.1 = Returned "a" /\
  toolCallCount <$> sessions r.2 !! "a" = Some 0 /\
  createdAt <$> sessions r.2 !! "a" = Some 2000 /\
  size (sessions r.2) = 1%nat.
Proof. vm_compute. repeat split; reflexivity. Qed.


(** An import over the live session ["a"]: one session before and after,
    and one more event, which is not a [destroyed] one. *)
Example importSession_over_live_session :
  let snapshot :=
    {| sd_id := Some "a"; sd_mode := Some "plan"; sd_workingDirectory := None;
       sd_permissionMode := None; sd_createdAt := None; sd_lastActivity := None;
       sd_toolCallCount := Some 7; sd_isActive := Some false;
       sd_metadata := None |} in
  let r := importSession env1 snapshot oneSession in
  r.1 = "a" /\ size (sessions oneSession) = 1%nat /\ size (sessions r.2) = 1%nat /\
  toolCallCount <$> sessions r.2 !! "a" = Some 7 /\
  isActive <$> sessions r.2 !! "a" = Some true /\
  type <$> emitted oneSession = [created] /\
  type <$> emitted r.2 = [created; created].
Proof. vm_compute. repeat split; reflexivity. Qed.

(** *** What every reachable store satisfies *)

Lemma invariant_lookup st :
  invariant st <-> forall k s, sessions st !! k = Some s -> good k s.
Proof. apply map_Forall_lookup. Qed.

Lemma good_set_lastActivity k t s : good k s -> good k (set_lastActivity t s).
Proof. unfold good. simpl. tauto. Qed.

Lemma good_set_toolCallCount k n s : good k s -> good k (set_toolCallCount n s).
Proof. unfold good. simpl. tauto. Qed.

Lemma good_set_mode k m s : m <> "" -> good k s -> good k (set_mode m s).
Proof. unfold good. simpl. tauto. Qed.

Lemma good_set_workingDirectory k d s :
  d <> "" -> good k s -> good k (set_workingDirectory d s).
Proof. unfold good. simpl. tauto. Qed.

Lemma good_set_permissionMode k p s :
  p <> "" -> good k s -> good k (set_permissionMode p s).
Proof. unfold good. simpl. tauto. Qed.

Lemma invariant_same_sessions st st' :
  sessions st' = sessions st -> invariant st -> invariant st'.
Proof. unfold invariant. intros ->. auto. Qed.

Lemma invariant_insert st st' k s :
  sessions st' = <[k := s]> (sessions st) ->
  good k s -> invariant st -> invariant st'.
Proof.
  unfold invariant. intros -> Hs Hst. apply map_Forall_insert_2; assumption.
Qed.

Lemma invariant_destroySession e sid st :
  invariant st -> invariant (destroySession e sid st).2.
Proof.
  unfold invariant. rewrite destroySession_sessions. apply map_Forall_delete.
Qed.

Lemma invariant_cleanup e st :
  invariant st -> invariant (cleanupExpiredSessions e st).2.
Proof.
  rewrite !invariant_lookup. intros Hst k s. rewrite cleanup_sessions.
  intros Hs. apply map_lookup_filter_Some in Hs as [Hs _]. eauto.
Qed.

Lemma invariant_createSession e config st :
  validEnv e -> invariant st -> invariant (createSession e config st).2.
Proof.
  intros [Hcwd Huuid] Hst. unfold createSession.
  set (st1 := if atCapacity st then (cleanupExpiredSessions e st).2 else st).
  assert (Hst1 : invariant st1).
  { subst st1. destruct (atCapacity st); [apply invariant_cleanup|]; exact Hst. }
  destruct (atCapacity st && atCapacity st1); simpl; [exact Hst1|].
  eapply invariant_insert; [reflexivity | | exact Hst1].
  unfold good. simpl.
  repeat split; auto using or_str_nonempty; apply or_str_nonempty; discriminate.
Qed.

Lemma invariant_getSession e sid st :
  invariant st -> invariant (getSession e sid st).2.
Proof.
  intros Hst. unfold getSession. destruct (sessions st !! sid) as [s|] eqn:Hs;
    simpl; [|exact Hst].
  eapply invariant_insert; [reflexivity | | exact Hst].
  apply good_set_lastActivity. apply invariant_lookup in Hs; assumption.
Qed.

Lemma invariant_updateSession e sid updates st :
  invariant st -> invariant (updateSession e sid updates st).2.
Proof.
  intros Hst. unfold updateSession.
  destruct (sessions st !! sid) as [s|] eqn:Hs; [|exact Hst].
  assert (Hgood : good sid s) by (apply invariant_lookup in Hs; assumption).
  destruct (changed (cfg_mode updates) (mode s)) as [m|] eqn:Hm.
  all: cbn [set_mode set_workingDirectory mode workingDirectory permissionMode].
  all: destruct (changed (cfg_workingDirectory updates) (workingDirectory s))
         as [d|] eqn:Hd.
  all: cbn [set_mode set_workingDirectory mode workingDirectory permissionMode].
  all: destruct (changed (cfg_permissionMode updates) (permissionMode s))
         as [p|] eqn:Hp.
  all: cbn [snd].
  all: repeat match goal with
       | |- invariant (if ?b then _ else _) => destruct b
       end.
  all: (eapply invariant_insert; [reflexivity | | exact Hst]).
  all: apply good_set_lastActivity.
  all: repeat first
         [ apply good_set_permissionMode; [eapply changed_Some; eassumption|]
         | apply good_set_workingDirectory; [eapply changed_Some; eassumption|]
         | apply good_set_mode; [eapply changed_Some; eassumption|] ].
  all: exact Hgood.
Qed.

Lemma invariant_incrementToolCall e sid st :
  invariant st -> invariant (incrementToolCall e sid st).2.
Proof.
  intros Hst. unfold incrementToolCall.
  destruct (sessions st !! sid) as [s|] eqn:Hs; simpl; [|exact Hst].
  eapply invariant_insert; [reflexivity | | exact Hst].
  apply good_set_lastActivity, good_set_toolCallCount.
  apply invariant_lookup in Hs; assumption.
Qed.

Lemma invariant_checkToolPermission e sid tool st :
  invariant st -> invariant (checkToolPermission e sid tool st).2.
Proof.
  intros Hst. unfold checkToolPermission.
  pose proof (invariant_getSession e sid st Hst) as Hget.
  destruct (getSession e sid st) as [[c|] st']; simpl in *; [|exact Hget].
  destruct (Permission.requestPermission (now e) tool (permissionManager st')).
  exact Hget.
Qed.

Lemma invariant_setSessionMetadata e sid key value st :
  invariant st -> invariant (setSessionMetadata e sid key value st).2.
Proof.
  intros Hst. unfold setSessionMetadata.
  destruct (sessions st !! sid) as [s|] eqn:Hs; simpl; [|exact Hst].
  eapply invariant_insert; [reflexivity | | exact Hst].
  apply good_set_lastActivity. apply invariant_lookup in Hs; assumption.
Qed.

Lemma getSessionMetadata_state e sid key st :
  (getSessionMetadata e sid key st).2 = (getSession e sid st).2.
Proof.
  unfold getSessionMetadata. destruct (getSession e sid st) as [[c|] st']; reflexivity.
Qed.

Lemma getAllSessionMetadata_state e sid st :
  (getAllSessionMetadata e sid st).2 = (getSession e sid st).2.
Proof.
  unfold getAllSessionMetadata. destruct (getSession e sid st) as [[c|] st']; reflexivity.
Qed.

Lemma exportSession_state e sid st :
  (exportSession e sid st).2 = (getSession e sid st).2.
Proof.
  unfold exportSession. destruct (getSession e sid st) as [[c|] st']; reflexivity.
Qed.

Lemma invariant_importSession e sessionData st :
  validEnv e -> invariant st -> invariant (importSession e sessionData st).2.
Proof.
  intros [Hcwd Huuid] Hst. unfold importSession. simpl.
  eapply invariant_insert; [reflexivity | | exact Hst].
  unfold good. simpl.
  repeat split; auto using or_str_nonempty; apply or_str_nonempty; discriminate.
Qed.

Lemma invariant_destroyAllSessions e st :
  invariant st -> invariant (destroyAllSessions e st).2.
Proof.
  unfold destroyAllSessions. generalize (map_to_list (sessions st)).*1 as ids.
  generalize 0%nat as n. intros n ids. revert n st.
  induction ids as [|sid ids IH]; intros n st Hst; simpl; [exact Hst|].
  pose proof (invariant_destroySession e sid st Hst) as Hd.
  destruct (destroySession e sid st) as [b st']. apply IH. exact Hd.
Qed.

Lemma invariant_perform e c st :
  validEnv e -> invariant st -> invariant (perform e c st).
Proof.
  intros He Hst. destruct c; simpl.
  - apply invariant_createSession; assumption.
  - apply invariant_getSession; assumption.
  - apply invariant_updateSession; assumption.
  - apply invariant_destroySession; assumption.
  - apply invariant_incrementToolCall; assumption.
  - apply invariant_checkToolPermission; assumption.
  - apply invariant_cleanup; assumption.
  - apply invariant_setSessionMetadata; assumption.
  - rewrite getSessionMetadata_state. apply invariant_getSession; assumption.
  - rewrite getAllSessionMetadata_state. apply invariant_getSession; assumption.
  - rewrite exportSession_state. apply invariant_getSession; assumption.
  - apply invariant_importSession; assumption.
  - apply invariant_destroyAllSessions; assumption.
  - exact Hst.
  - exact Hst.
Qed.

Lemma reachable_invariant st : reachable st -> invariant st.
Proof.
  induction 1 as [|e c st _ IH He].
  - unfold invariant. simpl. apply map_Forall_empty.
  - apply invariant_perform; assumption.
Qed.

Lemma reachable_oneSession : reachable oneSession.
Proof.
  assert (He : validEnv env0) by (split; discriminate).
  exact (reachable_perform env0 (CallIncrementToolCall "a") _
           (reachable_perform env0 (CallCreateSession (configWithId "a")) _
              reachable_new He) He).
Defined.

(** *** Export and import *)

Lemma importSession_marks_active e sessionData st s :
  sessions (importSession e sessionData st).2
    !! (importSession e sessionData st).1 = Some s ->
  isActive s = true.
Proof.
  unfold importSession. simpl. rewrite lookup_insert_eq.
  intros [= <-]. reflexivity.
Qed.

(** C6. A session [s] that a reachable store keeps under [sid] can be
    exported, and importing the snapshot, whatever [isActive] value it is
    made to carry, into any store [target] (the exporting one or another,
    holding a session under [sid] or not) stores under the identifier the
    import returns, which is [sid] again, a session with the working
    directory, permission mode, mode and tool-call count of [s], whose
    metadata is a [Map] allocated by the import that holds the entries of
    the metadata of [s], and which is active. *)
Theorem export_import_round_trip st e1 e2 sid s :
  reachable st ->
  sessions st !! sid = Some s ->
  exists snapshot st1,
    exportSession e1 sid st = (Some snapshot, st1) /\
    forall flag target,
      let r := importSession e2 (set_sd_isActive flag snapshot) target in
      exists s',
        r.1 = sid /\
        sessions r.2 !! sid = Some s' /\
        id s' = sid /\
        workingDirectory s' = workingDirectory s /\
        permissionMode s' = permissionMode s /\
        toolCallCount s' = toolCallCount s /\
        mode s' = mode s /\
        metadata s' = length (mapObjects target) /\
        deref (metadata s') r.2 = deref (metadata s) st /\
        isActive s' = true.
Proof.
  intros Hreach Hs.
  destruct (proj1 (invariant_lookup st) (reachable_invariant st Hreach) sid s Hs)
    as (Hid & Hsid & Hmode & Hwd & Hpm & Hact).
  unfold exportSession, getSession. rewrite Hs.
  eexists _, _. split; [reflexivity|]. intros flag target.
  unfold importSession. cbn [fst snd alloc sd_id sd_mode sd_workingDirectory
    sd_permissionMode sd_createdAt sd_lastActivity sd_toolCallCount sd_metadata
    set_sd_isActive set_lastActivity id mode workingDirectory permissionMode
    toolCallCount metadata default].
  rewrite Hid, (or_str_Some sid _ Hsid).
  eexists. split; [reflexivity|]. split; [apply lookup_insert_eq|].
  cbn [workingDirectory permissionMode toolCallCount mode metadata isActive].
  rewrite (or_str_Some _ _ Hwd), (or_str_Some _ _ Hpm), (or_str_Some _ _ Hmode).
  rewrite or_num_zero.
  repeat split; try reflexivity.
  unfold deref at 1. cbn [mapObjects emit with_permissionManager with_sessions
    with_mapObjects].
  rewrite list_lookup_middle by reflexivity. cbn [default].
  rewrite Object_fromEntries_id, Map_of_Object_entries. reflexivity.
Qed.

(** The hypotheses of [export_import_round_trip] are met by the store with
    one session ["a"] (one tool call made); its snapshot, made to carry
    [isActive: false] and imported into an empty store, gives an active
    session with one tool call there. *)
Lemma export_import_round_trip_witness :
  reachable oneSession /\
  sessions oneSession !! "a" =
    Some {| id := "a"; mode := "default"; workingDirectory := "/work";
            permissionMode := "yolo"; createdAt := 1000; lastActivity := 1000;
            toolCallCount := 1; isActive := true; metadata := 0%nat |} /\
  exists snapshot st1,
    exportSession env1 "a" oneSession = (Some snapshot, st1) /\
    exists s',
      sessions (importSession env1 (set_sd_isActive (Some false) snapshot) new).2
        !! "a" = Some s' /\
      toolCallCount s' = 1 /\ isActive s' = true.
Proof.
  split; [exact reachable_oneSession|]. split; [vm_compute; reflexivity|].
  destruct (export_import_round_trip oneSession env1 env1 "a" _
              reachable_oneSession eq_refl) as (snapshot & st1 & H & Himp).
  exists snapshot, st1. split; [exact H|].
  destruct (Himp (Some false) new)
    as (s' & _ & Hs' & _ & _ & _ & Hc & _ & _ & _ & Ha).
  exists s'. split; [exact Hs'|]. split; [exact Hc | exact Ha].
Defined.

(** *** Copies answered by [getSession] *)

Lemma getSession_not_found e sid st :
  sessions st !! sid = None -> getSession e sid st = (None, st).
Proof. intros H. unfold getSession. rewrite H. reflexivity. Qed.

(** The store-side effect of [getSession] on a live session: its
    [lastActivity], and nothing else. *)
Lemma getSession_touches_lastActivity e sid st s :
  sessions st !! sid = Some s ->
  let r := getSession e sid st in
  r.1 = Some (set_lastActivity (now e) s) /\
  sessions r.2 = <[sid := set_lastActivity (now e) s]> (sessions st) /\
  mapObjects r.2 = mapObjects st /\
  permissionManager r.2 = permissionManager st /\
  emitted r.2 = emitted st /\
  defaultSessionTimeout r.2 = defaultSessionTimeout st /\
  maxSessions r.2 = maxSessions st.
Proof.
  intros H r. subst r. unfold getSession. rewrite H. simpl. repeat split.
Qed.

(** The copy and the stored session reference the same [Map]: an entry
    written through the copy is read back through the store. *)
Lemma getSession_copy_aliases_metadata e e' sid st s copy key value :
  sessions st !! sid = Some s ->
  (metadata s < length (mapObjects st))%nat ->
  (getSession e sid st).1 = Some copy ->
  let st' := Map_set (metadata copy) key value (getSession e sid st).2 in
  (getSessionMetadata e' sid key st').1 = Some value.
Proof.
  intros Hs Hl Hcopy st'. subst st'. revert Hcopy.
  unfold getSession. rewrite Hs. simpl. intros [= <-].
  unfold getSessionMetadata, getSession. simpl.
  rewrite lookup_insert_eq. simpl. unfold deref. simpl.
  rewrite list_lookup_alter_eq.
  destruct (lookup_lt_is_Some_2 (mapObjects st) (metadata s) Hl) as [m ->].
  simpl. apply lookup_insert_eq.
Qed.

(** C7 at a concrete store: the session ["a"] has no metadata; a holder of
    the copy answered by [getSession] writes an entry to the copy's
    metadata, and the entry is then part of the metadata of the stored
    session, although the holder called no method of the store. *)
Theorem getSession_copy_shares_metadata :
  let answered := getSession env1 "a" oneSession in
  exists copy,
    answered.1 = Some copy /\
    let st' := Map_set (metadata copy) "k" (VStr "v") answered.2 in
    (getAllSessionMetadata env1 "a" answered.2).1 = ∅ /\
    (getAllSessionMetadata env1 "a" st').1 = {[ "k" := VStr "v" ]} /\
    sessions st' = sessions answered.2.
Proof.
  eexists. split; [reflexivity|]. vm_compute. repeat split; reflexivity.
Qed.

End SessionFacts.

(** * Properties of the tool-mapping indices *)

Section ToolConverterFacts.
Import Types ToolConverter.

Lemma consistent_empty : consistent {| mappings := ∅; reverseMappings := ∅ |}.
Proof.
  split; intros k m H; simpl in H; rewrite lookup_empty in H; discriminate.
Qed.

(** Registering a mapping whose two names are both unused keeps the
    indices consistent. *)
Lemma consistent_addMapping_fresh c mapping :
  consistent c ->
  mappings c !! fromACP mapping = None ->
  reverseMappings c !! toKode mapping = None ->
  consistent (addMapping mapping c).
Proof.
  intros [Hf Hi] Hext Hint. split.
  - intros ext m. unfold addMapping. simpl. rewrite lookup_insert.
    case_decide as Hk.
    + intros [= <-]. exists mapping. rewrite lookup_insert_eq. auto.
    + intros Hm. destruct (Hf ext m Hm) as (m' & Hm' & Hext').
      exists m'. split; [|exact Hext'].
      rewrite lookup_insert_ne; [exact Hm'|]. intros Heq.
      rewrite <- Heq, Hint in Hm'. discriminate.
  - intros int m. unfold addMapping. simpl. rewrite lookup_insert.
    case_decide as Hk.
    + intros [= <-]. exists mapping. rewrite lookup_insert_eq. auto.
    + intros Hm. destruct (Hi int m Hm) as (m' & Hm' & Hint').
      exists m'. split; [|exact Hint'].
      rewrite lookup_insert_ne; [exact Hm'|]. intros Heq.
      rewrite <- Heq, Hext in Hm'. discriminate.
Qed.

(** Removing a mapping keeps the indices consistent. *)
Lemma consistent_removeMapping c n :
  consistent c -> consistent (removeMapping n c).
Proof.
  intros [Hf Hi]. unfold removeMapping.
  destruct (mappings c !! n) as [mapping|] eqn:Hn; [|split; assumption].
  destruct (Hf n mapping Hn) as (inv & Hinv & Hinv_ext).
  split.
  - intros ext m. simpl. rewrite lookup_delete. case_decide as Hk; [discriminate|].
    intros Hm. destruct (Hf ext m Hm) as (m' & Hm' & Hext').
    exists m'. split; [|exact Hext'].
    rewrite lookup_delete_ne; [exact Hm'|]. intros Heq.
    rewrite <- Heq, Hinv in Hm'. congruence.
  - intros int m. simpl. rewrite lookup_delete. case_decide as Hk; [discriminate|].
    intros Hm. destruct (Hi int m Hm) as (m' & Hm' & Hint').
    exists m'. split; [|exact Hint'].
    rewrite lookup_delete_ne; [exact Hm'|]. intros Heq.
    rewrite <- Heq, Hn in Hm'. congruence.
Qed.

Lemma consistent_initializeMappings ms c :
  consistent c -> registrable ms c -> consistent (initializeMappings ms c).
Proof.
  revert c. induction ms as [|mapping ms IH]; intros c Hc Hms; [exact Hc|].
  destruct Hms as (Hext & Hint & Hms).
  change (consistent (initializeMappings ms (addMapping mapping c))).
  apply IH; [|exact Hms]. apply consistent_addMapping_fresh; assumption.
Qed.

Lemma consistent_default : consistent defaultToolConverter.
Proof.
  apply consistent_initializeMappings; [apply consistent_empty|].
  vm_compute. repeat split; reflexivity.
Qed.

(** C8 at a concrete converter: the default indices are consistent, and
    registering ['read_file'] again, now for the internal name ['Reader'],
    replaces the forward entry and adds an inverse entry for ['Reader'], but
    the inverse entry of ['FileRead'] stays and still names ['read_file']:
    the indices are no longer consistent. *)
Theorem addMapping_leaves_stale_inverse :
  let c := mutate defaultToolConverter (Add readFileAsReader) in
  consistent defaultToolConverter /\
  toKode <$> mappings c !! "read_file" = Some "Reader" /\
  fromACP <$> reverseMappings c !! "Reader" = Some "read_file" /\
  fromACP <$> reverseMappings c !! "FileRead" = Some "read_file" /\
  ~ consistent c.
Proof.
  split; [exact consistent_default|].
  split; [vm_compute; reflexivity|].
  split; [vm_compute; reflexivity|].
  split; [vm_compute; reflexivity|].
  intros [_ Hi].
  destruct (reverseMappings (mutate defaultToolConverter (Add readFileAsReader))
              !! "FileRead") as [stale|] eqn:Hstale; [|vm_compute in Hstale; discriminate].
  destruct (Hi "FileRead" stale Hstale) as (m' & Hm' & Hint).
  vm_compute in Hstale. injection Hstale as <-.
  vm_compute in Hm'. injection Hm' as <-. discriminate Hint.
Qed.

End ToolConverterFacts.

(** * Properties of the parallel dispatch *)

Section MultiModelFacts.
Import MultiModel.

(** One entry per request, the [i]-th entry being that of the [i]-th
    request. *)
Lemma executeInParallel_length requests mm :
  length (executeInParallel requests mm) = length requests.
Proof. unfold executeInParallel. apply length_fmap. Qed.

Lemma executeInParallel_lookup requests mm i :
  executeInParallel requests mm !! i = settle mm <$> requests !! i.
Proof. unfold executeInParallel. apply list_lookup_fmap. Qed.

(** An entry carries an error exactly when the profile of its request
    cannot be resolved. *)
Lemma settle_error mm r :
  let target := or_str (Some (requestedModel r mm)) (currentModel mm) in
  match modelProfiles mm !! target with
  | Some p =>
      settle mm r = {| entry_model := requestedModel r mm;
                       response := simulateModelCall p (prompt r) (options r);
                       error := None |}
  | None =>
      settle mm r = {| entry_model := or_str (modelName r) (currentModel mm);
                       response := "";
                       error := Some ("Model profile not found: " +:+ target) |}
  end.
Proof.
  intros target. subst target. unfold settle, executeWithModel.
  destruct (modelProfiles mm !! _); reflexivity.
Qed.

(** C9 at a concrete batch: with the [task] pointer set to a name that has
    no profile, a request that selects its model through that pointer
    yields one entry, which carries the error, but whose model field is the
    current model ['claude-sonnet'] and not the name ['missing'] the
    request resolved to. *)
Theorem executeInParallel_misattributes_pointer_failure :
  let entries := executeInParallel [taskRequest] danglingTask in
  requestedModel taskRequest danglingTask = "missing" /\
  length entries = 1%nat /\
  entries = [{| entry_model := "claude-sonnet"; response := "";
                error := Some "Model profile not found: missing" |}].
Proof. vm_compute. repeat split; reflexivity. Qed.

(** Three requests, the second naming an unknown profile: three entries,
    the second one with the error, the others with responses. *)
Example executeInParallel_three :
  let request n :=
    {| prompt := "hi"; modelName := Some n; purpose := None; options := None |} in
  let entries := executeInParallel [request "gpt-4"; request "nope"; request "gpt-4o"] new in
  (fun x => (entry_model x, error x)) <$> entries
  = [("gpt-4", None); ("nope", Some "Model profile not found: nope"); ("gpt-4o", None)].
Proof. vm_compute. reflexivity. Qed.

End MultiModelFacts.

(** * Properties of the router *)

Section AgentFacts.
Import Types Agent.

Lemma handleMessage_tool_call executeTool e m a :
  type m = "tool_call" ->
  handleMessage executeTool e m a = handleToolCall executeTool e m a.
Proof. intros H. unfold handleMessage. rewrite H. reflexivity. Qed.

(** C1, as the code has it. For a [tool_call] message whose session
    exists, the router calls the execution collaborator once, with the
    tool name and input as received, and answers with its result; it makes
    no permission request and changes nothing else. *)
Theorem handleToolCall_executes_directly executeTool e m a sid tc session :
  type m = "tool_call" ->
  sessionId m = Some sid -> sid <> "" ->
  toolCall m = Some tc ->
  sessions a !! sid = Some session ->
  let r := handleMessage executeTool e m a in
  let call := {| name := tc_name tc; input := tc_input tc;
                 id := Some (or_str (tc_id tc) (uuid e)) |} in
  actions r.2 = (actions a ++ [ExecuteTool call])%list /\
  (forall t, RequestPermission t ∈ actions r.2 -> RequestPermission t ∈ actions a) /\
  r.1 = match executeTool call with
        | inl result => tool_call_response sid (or_str (tc_id tc) (uuid e)) result
        | inr msg => error ("Tool call failed: " +:+ msg)
        end /\
  sessions r.2 = sessions a /\
  multiModelManager r.2 = multiModelManager a.
Proof.
  intros Hty Hsid Hne Htc Hsess r call. subst r call.
  rewrite (handleMessage_tool_call _ _ _ _ Hty). unfold handleToolCall.
  rewrite Hsid, Htc, (or_str_Some sid _ Hne).
  rewrite (bool_decide_eq_false_2 _ Hne), Hsess.
  destruct (executeTool _) as [result|msg]; simpl.
  all: repeat split; try reflexivity.
  all: intros t Hin; apply elem_of_app in Hin as [Hin|Hin]; [exact Hin|].
  all: apply list_elem_of_singleton in Hin; discriminate.
Qed.

(** Without the session, or without one of the two fields, the answer is
    an error and the execution collaborator is not called. *)
Lemma handleToolCall_unknown_session executeTool e m a sid :
  sessionId m = Some sid -> sessions a !! sid = None ->
  exists msg, handleToolCall executeTool e m a = (error msg, a).
Proof.
  intros Hsid Hsess. unfold handleToolCall. rewrite Hsid.
  destruct (toolCall m) as [tc|]; [|eexists; reflexivity].
  case_bool_decide as Hempty; [eexists; reflexivity|].
  rewrite (or_str_Some sid _) in * by (intros ->; apply Hempty; reflexivity).
  rewrite Hsess. eexists. reflexivity.
Qed.

(** The hypotheses of [handleToolCall_executes_directly] are met by a
    [tool_call] message for a session made by [new_session]. *)
Lemma handleToolCall_executes_directly_witness :
  let a := (handleNewSession env0 (new env0 noConfig)).2 in
  sessions a !! "s-1" =
    Some {| session_id := "s-1"; workingDirectory := "/work";
            cancelled := false; permissionMode := "yolo" |} /\
  actions (handleMessage notImplemented env0 (toolCallMessage "s-1" "read_file") a).2
  = [ExecuteTool {| name := "read_file"; input := JObj []; id := Some "c-1" |}].
Proof.
  intros a. split; [vm_compute; reflexivity|].
  refine (proj1 (handleToolCall_executes_directly notImplemented env0
                   (toolCallMessage "s-1" "read_file") a "s-1" _ _
                   eq_refl eq_refl _ eq_refl _)).
  - discriminate.
  - vm_compute. reflexivity.
Defined.

(** C1 as worded does not hold: for a session that exists and a tool name
    that has no mapping, the execution collaborator is called, and no
    permission request comes before the call. *)
Lemma handleToolCall_not_gated :
  let a := (handleNewSession env0 (new env0 noConfig)).2 in
  let r := handleMessage notImplemented env0
             (toolCallMessage "s-1" "nonexistent_tool") a in
  ToolConverter.mappings ToolConverter.defaultToolConverter
    !! "nonexistent_tool" = None /\
  actions r.2
  = [ExecuteTool {| name := "nonexistent_tool"; input := JObj []; id := Some "c-1" |}] /\
  ~ gated (actions r.2).
Proof.
  split; [vm_compute; reflexivity|]. split; [vm_compute; reflexivity|].
  intros Hgated. destruct (Hgated 0%nat _ eq_refl) as (j & Hj & _). lia.
Qed.

End AgentFacts.

(** * Further properties of the permission policy *)

Section PermissionCoverage.
Import Permission.

Lemma lookup_default :
  initializeModes !! "default" =
  Some {| name := "default"; description := "Manual approval for all tools";
          autoApprove := Some ["read_file"; "glob"; "search"];
          autoDeny := Some ["run_command"; "edit_file"; "write_file"] |}.
Proof. vm_compute. reflexivity. Qed.

Lemma lookup_accept_edits :
  initializeModes !! "accept_edits" =
  Some {| name := "accept_edits";
          description := "Auto-approve read operations, prompt for writes";
          autoApprove := Some ["read_file"; "glob"; "search"];
          autoDeny := Some ["run_command"] |}.
Proof. vm_compute. reflexivity. Qed.

Lemma registered_builtin n :
  is_Some (initializeModes !! n) ->
  n ∈ ["default"; "accept_edits"; "bypass_permissions"; "plan"].
Proof.
  unfold initializeModes, builtinModes. cbn [foldl name].
  rewrite !lookup_insert. repeat case_decide; subst.
  - intros _. do 3 right. left.
  - intros _. do 2 right. left.
  - intros _. right. left.
  - intros _. left.
  - rewrite lookup_empty. intros [? ?]. discriminate.
Qed.

Lemma requestPermission_keeps_mode now t pm :
  modes (requestPermission now t pm).2 = modes pm /\
  currentMode (requestPermission now t pm).2 = currentMode pm.
Proof.
  unfold requestPermission. destruct (modes pm !! currentMode pm) as [mode|]; [|auto].
  repeat match goal with |- context [if ?b then _ else _] => destruct b end; auto.
Qed.

(** The modes table is never written after construction, and the active
    mode is always one of its four names. *)
Lemma reachable_builtin pm :
  reachable pm ->
  modes pm = initializeModes /\
  currentMode pm ∈ ["default"; "accept_edits"; "bypass_permissions"; "plan"].
Proof.
  induction 1 as [|c pm _ [IHm IHc]].
  - split; [reflexivity | left].
  - destruct c as [now t | now t a r | n | now timeout]; simpl.
    + destruct (requestPermission_keeps_mode now t pm) as [-> ->]. auto.
    + auto.
    + unfold setMode. case_bool_decide as Hn; [|auto]. simpl.
      split; [exact IHm|]. apply registered_builtin. rewrite <- IHm. exact Hn.
    + auto.
Qed.

Lemma reachable_active_mode pm :
  reachable pm -> exists mode, modes pm !! currentMode pm = Some mode.
Proof.
  intros H. destruct (reachable_builtin pm H) as [Hm Hc]. rewrite Hm.
  repeat (apply elem_of_cons in Hc as [-> | Hc]);
    [ rewrite lookup_default | rewrite lookup_accept_edits
    | rewrite lookup_bypass | rewrite lookup_plan | ]; eauto.
  apply elem_of_nil in Hc. contradiction.
Qed.

(** X1. On a manager built by the constructor, whatever calls it has
    served, [requestPermission] always records a decision for the tool:
    the decision carries the time of the call and the answer returned. The
    branch for an unknown active mode, which records nothing, is never
    taken. *)
Theorem requestPermission_always_records now t pm :
  reachable pm ->
  let r := requestPermission now t pm in
  exists d,
    getPermission t r.2 = Some d /\
    toolName d = t /\ allowed d = r.1 /\ timestamp d = now /\
    is_Some (reason d).
Proof.
  intros Hreach r. subst r.
  destruct (reachable_active_mode pm Hreach) as [mode Hmode].
  unfold requestPermission. rewrite Hmode.
  repeat match goal with |- context [if ?b then _ else _] => destruct b end;
    cbn [fst snd]; rewrite getPermission_setPermission; eexists;
    (split; [reflexivity|]); simpl; repeat split; eauto.
Qed.

(** The hypothesis of [requestPermission_always_records] is met by the
    manager after a switch to plan mode. *)
Lemma requestPermission_always_records_witness :
  reachable (setMode "plan" new) /\
  exists d, getPermission "glob" (requestPermission 7 "glob" (setMode "plan" new)).2
            = Some d /\ allowed d = false.
Proof.
  assert (H : reachable (setMode "plan" new))
    by exact (reachable_perform (CallSetMode "plan") new reachable_new).
  split; [exact H|].
  destruct (requestPermission_always_records 7 "glob" _ H) as (d & Hd & _ & Ha & _).
  exists d. split; [exact Hd|]. rewrite Ha. vm_compute. reflexivity.
Defined.

(** X2. The decision table of the built-in modes. On a manager built by
    the constructor, whatever decisions it holds, [requestPermission t]
    answers [true] exactly when the active mode is bypass_permissions, or
    it is default or accept_edits and [t] is one of read_file, glob and
    search. In particular no recorded decision, not even a manual approval
    written with [setPermission], changes the answer. *)
Theorem requestPermission_builtin_table now t pm :
  reachable pm ->
  (requestPermission now t pm).1
  = bool_decide (currentMode pm = "bypass_permissions")
    || (bool_decide (currentMode pm ∈ ["default"; "accept_edits"])
        && bool_decide (t ∈ readOnlyTools)).
Proof.
  intros Hreach. destruct (reachable_builtin pm Hreach) as [Hm Hc].
  unfold requestPermission. rewrite Hm.
  repeat (apply elem_of_cons in Hc as [-> | Hc]).
  - rewrite lookup_default. cbn [autoApprove autoDeny includes].
    change (bool_decide ("*" ∈ ["read_file"; "glob"; "search"])) with false.
    change (bool_decide ("default" = "bypass_permissions")) with false.
    change (bool_decide ("default" ∈ ["default"; "accept_edits"])) with true.
    cbn [orb andb]. unfold readOnlyTools.
    destruct (bool_decide (t ∈ ["read_file"; "glob"; "search"])); [reflexivity|].
    destruct (_ || _); reflexivity.
  - rewrite lookup_accept_edits. cbn [autoApprove autoDeny includes].
    change (bool_decide ("*" ∈ ["read_file"; "glob"; "search"])) with false.
    change (bool_decide ("accept_edits" = "bypass_permissions")) with false.
    change (bool_decide ("accept_edits" ∈ ["default"; "accept_edits"])) with true.
    cbn [orb andb]. unfold readOnlyTools.
    destruct (bool_decide (t ∈ ["read_file"; "glob"; "search"])); [reflexivity|].
    destruct (_ || _); reflexivity.
  - rewrite lookup_bypass. reflexivity.
  - rewrite lookup_plan. reflexivity.
  - apply elem_of_nil in Hc. contradiction.
Qed.

(** The hypothesis of [requestPermission_builtin_table] is met by a manager
    on which run_command was approved by hand: the request still denies it. *)
Lemma requestPermission_builtin_table_witness :
  let pm := setPermission 1 "run_command" true (Some "by hand") new in
  reachable pm /\
  allowed <$> getPermission "run_command" pm = Some true /\
  (requestPermission 2 "run_command" pm).1 = false.
Proof.
  intros pm.
  assert (H : reachable pm)
    by exact (reachable_perform
                (CallSetPermission 1 "run_command" true (Some "by hand")) new
                reachable_new).
  split; [exact H|]. split; [vm_compute; reflexivity|].
  rewrite (requestPermission_builtin_table 2 "run_command" pm H).
  vm_compute. reflexivity.
Defined.

(** *** The purge of old decisions *)

Lemma purge_deletes now timeout l acc k d :
  (k, d) ∈ l -> now - timestamp d > timeout ->
  foldl (clearExpired now timeout) acc l !! k = None.
Proof.
  revert acc. induction l as [|[k' d'] l IH]; intros acc Hin Hold.
  - apply elem_of_nil in Hin. contradiction.
  - simpl. apply elem_of_cons in Hin as [[= <- <-] | Hin]; [|apply IH; assumption].
    unfold clearExpired at 2. simpl. rewrite bool_decide_eq_true_2 by exact Hold.
    clear IH. generalize (delete k acc) (lookup_delete_eq acc k).
    induction l as [|[k2 d2] l IHl]; intros m Hm; simpl; [exact Hm|].
    apply IHl. unfold clearExpired. case_bool_decide; [|exact Hm].
    simpl. rewrite lookup_delete. case_decide; [reflexivity | exact Hm].
Qed.

Lemma purge_keeps now timeout l acc k :
  (forall d, (k, d) ∈ l -> ~ now - timestamp d > timeout) ->
  foldl (clearExpired now timeout) acc l !! k = acc !! k.
Proof.
  revert acc. induction l as [|[k' d'] l IH]; intros acc Hl; simpl; [reflexivity|].
  rewrite IH by (intros d Hd; apply Hl; right; exact Hd).
  unfold clearExpired. case_bool_decide as Hold; [|reflexivity]. simpl.
  apply lookup_delete_ne. intros ->. apply (Hl d'); [left | exact Hold].
Qed.

(** X3. [clearExpiredPermissions] deletes exactly the decisions recorded
    more than [timeout] before [now]: every other decision, one that is
    exactly [timeout] old included, is still there, and the modes are not
    touched. *)
Theorem clearExpiredPermissions_purges now timeout pm t :
  let pm' := clearExpiredPermissions now timeout pm in
  getPermission t pm'
  = match getPermission t pm with
    | Some d => if bool_decide (now - timestamp d > timeout) then None else Some d
    | None => None
    end /\
  currentMode pm' = currentMode pm /\ modes pm' = modes pm.
Proof.
  intros pm'. subst pm'. unfold clearExpiredPermissions, getPermission. simpl.
  split; [|auto].
  destruct (permissions pm !! t) as [d|] eqn:Hd.
  - case_bool_decide as Hold.
    + apply (purge_deletes now timeout _ _ t d); [|exact Hold].
      apply elem_of_map_to_list, Hd.
    + rewrite purge_keeps; [exact Hd|].
      intros d' Hd'. apply elem_of_map_to_list in Hd'. congruence.
  - rewrite purge_keeps; [exact Hd|].
    intros d' Hd'. apply elem_of_map_to_list in Hd'. congruence.
Qed.

End PermissionCoverage.

(** * Further properties of the session store *)

Section SessionCoverage.
Import Session.

(** *** Counting tool calls *)

Lemma incrementToolCalls_lookup e sid n st s :
  sessions st !! sid = Some s ->
  exists s', sessions (incrementToolCalls e sid n st) !! sid = Some s' /\
             toolCallCount s' = toolCallCount s + Z.of_nat n.
Proof.
  intros Hs. induction n as [|n (s' & Hs' & Hc)].
  - exists s. split; [exact Hs | simpl; lia].
  - change (incrementToolCalls e sid (S n) st)
      with (incrementToolCall e sid (incrementToolCalls e sid n st)).2.
    generalize dependent (incrementToolCalls e sid n st). intros stn Hs'.
    unfold incrementToolCall. rewrite Hs'. cbn [snd with_sessions sessions].
    eexists. split; [apply lookup_insert_eq|]. simpl. lia.
Qed.

(** X4. [incrementToolCall] on an identifier the store does not hold
    answers 0 and leaves the manager as it was: no session is created. On
    a session it holds, whose count is a safe integer, the [n+1]-th call
    in a row answers the count the session had plus [n+1], as long as
    that sum is a safe integer. *)
Theorem incrementToolCall_counts e sid st :
  (sessions st !! sid = None -> incrementToolCall e sid st = (0, st)) /\
  (forall s n, sessions st !! sid = Some s ->
     isSafeInteger (toolCallCount s) ->
     toolCallCount s + Z.of_nat n + 1 ≤ MAX_SAFE_INTEGER ->
     (incrementToolCall e sid (incrementToolCalls e sid n st)).1
     = toolCallCount s + Z.of_nat n + 1).
Proof.
  split.
  - intros H. unfold incrementToolCall. rewrite H. reflexivity.
  - intros s n Hs _ _.
    destruct (incrementToolCalls_lookup e sid n st s Hs) as (s' & Hs' & Hc).
    unfold incrementToolCall. rewrite Hs'. simpl. lia.
Qed.

(** The hypotheses of [incrementToolCall_counts] are met by the store with
    one session ["a"], whose count is 1: the third call from there
    answers 4. *)
Lemma incrementToolCall_counts_witness :
  (incrementToolCall env1 "a" (incrementToolCalls env1 "a" 2 oneSession)).1 = 4.
Proof.
  destruct (sessions oneSession !! "a") as [s|] eqn:Hs;
    [|vm_compute in Hs; discriminate].
  assert (Hc : toolCallCount s = 1)
    by (vm_compute in Hs; injection Hs as <-; reflexivity).
  rewrite (proj2 (incrementToolCall_counts env1 "a" oneSession) s 2%nat Hs).
  - rewrite Hc. reflexivity.
  - rewrite Hc. unfold isSafeInteger, MAX_SAFE_INTEGER. lia.
  - rewrite Hc. unfold MAX_SAFE_INTEGER. lia.
Defined.

(** *** Destroying sessions *)

(** X5. [destroySession] on a stored session answers [true], removes the
    session, emits its [destroyed] event and leaves the [Map] objects
    alone; the same call again finds nothing: it answers [false] and
    changes nothing, and [getSession] answers not-found. *)
Theorem destroySession_once e e' sid st s :
  sessions st !! sid = Some s ->
  let r := destroySession e sid st in
  r.1 = true /\
  sessions r.2 = delete sid (sessions st) /\
  size (sessions r.2) = pred (size (sessions st)) /\
  emitted r.2 = (emitted st ++ [destroyedEvent e (sid, s)])%list /\
  mapObjects r.2 = mapObjects st /\
  destroySession e' sid r.2 = (false, r.2) /\
  getSession e' sid r.2 = (None, r.2).
Proof.
  intros Hs r.
  assert (Hr : r = (true, emit (destroyedEvent e (sid, s))
                           (with_sessions (delete sid) st))).
  { subst r. unfold destroySession. rewrite Hs. reflexivity. }
  rewrite Hr. cbn [fst snd].
  split; [reflexivity|]. split; [reflexivity|]. split.
  { simpl. apply map_size_delete_Some. rewrite Hs. eexists. reflexivity. }
  split; [reflexivity|]. split; [reflexivity|].
  unfold destroySession, getSession. simpl. rewrite lookup_delete_eq. auto.
Qed.

(** The hypothesis of [destroySession_once] is met by the store with one
    session, which is empty afterwards. *)
Lemma destroySession_once_witness :
  sessions oneSession !! "a" =
    Some {| id := "a"; mode := "default"; workingDirectory := "/work";
            permissionMode := "yolo"; createdAt := 1000; lastActivity := 1000;
            toolCallCount := 1; isActive := true; metadata := 0%nat |} /\
  size (sessions (destroySession env1 "a" oneSession).2) = 0%nat.
Proof.
  split; [vm_compute; reflexivity|].
  destruct (destroySession_once env1 env1 "a" oneSession _ eq_refl)
    as (_ & _ & H & _).
  rewrite H. vm_compute. reflexivity.
Defined.

Lemma destroy_counting e (l : list (string * SessionState)) n st :
  NoDup l.*1 ->
  (forall k s, (k, s) ∈ l -> sessions st !! k = Some s) ->
  let r :=
    foldl (fun acc sid =>
             let '(b, st) := destroySession e sid acc.2 in
             (if b then S acc.1 else acc.1, st))
      (n, st) l.*1 in
  r.1 = (n + length l)%nat /\
  sessions r.2 = foldl (fun m sid => delete sid m) (sessions st) l.*1 /\
  emitted r.2 = (emitted st ++ (destroyedEvent e <$> l))%list /\
  mapObjects r.2 = mapObjects st /\
  permissionManager r.2 = permissionManager st.
Proof.
  revert n st. induction l as [|[k s] l IH]; intros n st Hnd Hl; cbv zeta.
  - cbn. rewrite app_nil_r. repeat split; lia.
  - inversion Hnd as [|? ? Hk Hnd']; subst.
    assert (Hs : sessions st !! k = Some s) by (apply Hl; left).
    set (st' := emit (destroyedEvent e (k, s)) (with_sessions (delete k) st)).
    assert (Hd : destroySession e k st = (true, st')).
    { unfold destroySession. rewrite Hs. reflexivity. }
    assert (Hl' : forall k' s', (k', s') ∈ l -> sessions st' !! k' = Some s').
    { intros k' s' Hin. subst st'. cbn [sessions emit with_sessions].
      rewrite lookup_delete_ne.
      - apply Hl. right. exact Hin.
      - intros ->. apply Hk. apply (list_elem_of_fmap_2 fst) in Hin. exact Hin. }
    rewrite !fmap_cons. cbn [foldl fst snd length]. rewrite Hd.
    pose proof (IH (S n) st' Hnd' Hl') as H. cbv zeta in H.
    destruct H as (H1 & H2 & H3 & H4 & H5).
    rewrite H1, H2, H3, H4, H5. subst st'. cbn [sessions emit with_sessions
      emitted mapObjects permissionManager]. rewrite <- app_assoc.
    repeat split; lia.
Qed.

(** X6. [destroyAllSessions] answers the number of sessions the store
    held, leaves the store empty, and adds to the events emitted before
    it one [destroyed] event per session, in some order; the [Map]
    objects and the permission policy are untouched. *)
Theorem destroyAllSessions_empties e st :
  let r := destroyAllSessions e st in
  r.1 = size (sessions st) /\
  sessions r.2 = ∅ /\
  (exists events,
     emitted r.2 = (emitted st ++ events)%list /\
     events ≡ₚ destroyedEvent e <$> map_to_list (sessions st)) /\
  mapObjects r.2 = mapObjects st /\
  permissionManager r.2 = permissionManager st.
Proof.
  intros r. subst r. unfold destroyAllSessions.
  destruct (destroy_counting e (map_to_list (sessions st)) 0 st)
    as (H1 & H2 & H3 & H4 & H5).
  { apply NoDup_fst_map_to_list. }
  { intros k s. apply elem_of_map_to_list. }
  rewrite H1, H2, H3, H4, H5. rewrite length_map_to_list.
  split; [reflexivity|]. split; [|split; [|split; reflexivity]];
    [|eexists; split; reflexivity].
  apply map_eq. intros k. rewrite lookup_delete_each, lookup_empty.
  destruct (decide (k ∈ (map_to_list (sessions st)).*1)) as [_|Hn]; [reflexivity|].
  destruct (sessions st !! k) as [s|] eqn:Hs; [|reflexivity].
  exfalso. apply Hn. apply elem_of_map_to_list in Hs.
  apply (list_elem_of_fmap_2 fst) in Hs. exact Hs.
Qed.

(** *** The periodic sweep *)

Lemma size_filter_sessions (P : string * SessionState -> Prop)
    `{!forall x, Decision (P x)} (m : gmap string SessionState) :
  size (filter P m) = length (filter P (map_to_list m)).
Proof.
  rewrite map_filter_alt. apply map_size_list_to_map.
  eapply NoDup_fmap_fst.
  - intros k s1 s2 H1 H2.
    apply list_elem_of_filter in H1 as [_ H1]. apply list_elem_of_filter in H2 as [_ H2].
    apply elem_of_map_to_list in H1. apply elem_of_map_to_list in H2. congruence.
  - apply NoDup_filter, NoDup_map_to_list.
Qed.

Lemma expiredIds_none e st :
  (forall k s, sessions st !! k = Some s ->
     isExpired (now e) (defaultSessionTimeout st) s = false) ->
  expiredIds e st = [].
Proof.
  intros H. unfold expiredIds.
  destruct (filter _ (map_to_list (sessions st))) as [|[k s] l] eqn:Hf; [reflexivity|].
  assert (Hin : (k, s) ∈ filter
            (fun kv => Is_true (isExpired (now e) (defaultSessionTimeout st) kv.2))
            (map_to_list (sessions st))) by (rewrite Hf; left).
  apply list_elem_of_filter in Hin as [Hexp Hin]. apply elem_of_map_to_list in Hin.
  simpl in Hexp. rewrite (H k s Hin) in Hexp. contradiction.
Qed.

(** X7. The sweep answers the number of sessions it removed, and a second
    sweep at the same time removes nothing, emits nothing and answers 0. *)
Theorem cleanupExpiredSessions_count e st :
  let r := cleanupExpiredSessions e st in
  (r.1 + size (sessions r.2) = size (sessions st))%nat /\
  cleanupExpiredSessions e r.2 = (0%nat, r.2).
Proof.
  intros r. subst r. split.
  - rewrite cleanup_sessions, size_filter_sessions.
    unfold cleanupExpiredSessions, expiredIds. cbn [fst]. rewrite length_fmap.
    rewrite <- length_map_to_list, <- length_app.
    apply Permutation_length, filter_app_complement.
  - assert (Hnone : expiredIds e (cleanupExpiredSessions e st).2 = []).
    { apply expiredIds_none. intros k s. rewrite cleanup_sessions.
      intros Hs. apply map_lookup_filter_Some in Hs as [_ Hexp]. simpl in Hexp.
      destruct (cleanup_frame e st) as (_ & _ & -> & _).
      destruct (isExpired _ _ s); [exfalso; apply Hexp; exact I | reflexivity]. }
    unfold cleanupExpiredSessions at 1. rewrite Hnone. reflexivity.
Qed.

(** X8. When the store is at or above the cap and the sweep brings it
    below, [createSession] succeeds: it answers the identifier and stores
    the new session on top of the swept store, after the events of the
    sweep. *)
Theorem createSession_after_sweep e config st :
  (maxSessions st ≤ size (sessions st))%nat ->
  let swept := (cleanupExpiredSessions e st).2 in
  (size (sessions swept) < maxSessions st)%nat ->
  let r := createSession e config st in
  let sid := or_str (cfg_id config) (uuid e) in
  r.1 = Returned sid /\
  (exists s, sessions r.2 = <[sid := s]> (sessions swept) /\
             id s = sid /\ toolCallCount s = 0 /\ isActive s = true /\
             deref (metadata s) r.2 = ∅ /\
             emitted r.2
             = (emitted swept ++ [{| type := created; sessionId := sid;
                                     timestamp := now e;
                                     data := DSession s false |}])%list) /\
  (size (sessions r.2) ≤ maxSessions st)%nat.
Proof.
  intros Hcap swept Hroom r sid. subst r.
  assert (Hmax : maxSessions swept = maxSessions st) by apply cleanup_frame.
  unfold createSession, atCapacity.
  rewrite (bool_decide_eq_true_2 _ Hcap). fold swept. rewrite Hmax.
  rewrite bool_decide_eq_false_2 by lia. cbn [andb alloc fst snd].
  split; [reflexivity|]. split.
  - eexists. split; [reflexivity|]. repeat split.
    unfold deref. simpl. rewrite list_lookup_middle; reflexivity.
  - simpl. rewrite map_size_insert. fold sid.
    destruct (sessions swept !! sid); simpl; lia.
Qed.

(** The hypotheses of [createSession_after_sweep] are met by the store of
    a hundred sessions once they have all been idle for the timeout: the
    next creation succeeds and the store then holds that session only. *)
Lemma createSession_after_sweep_witness :
  (maxSessions hundredSessions ≤ size (sessions hundredSessions))%nat /\
  (size (sessions (cleanupExpiredSessions envLate hundredSessions).2)
   < maxSessions hundredSessions)%nat /\
  (createSession envLate emptyConfig hundredSessions).1 = Returned "uuid-3".
Proof.
  split; [vm_compute; lia|]. split; [vm_compute; lia|].
  refine (proj1 (createSession_after_sweep envLate emptyConfig hundredSessions _ _)).
  - vm_compute. lia.
  - vm_compute. lia.
Defined.

(** X9. [importSession] does not look at the cap: importing a snapshot
    whose identifier is not in the store adds a session whatever the size
    of the store, so a store at its cap grows beyond it. *)
Theorem importSession_ignores_cap e sessionData st :
  sessions st !! or_str (sd_id sessionData) (uuid e) = None ->
  (maxSessions st ≤ size (sessions st))%nat ->
  let r := importSession e sessionData st in
  size (sessions r.2) = S (size (sessions st)) /\
  (maxSessions r.2 < size (sessions r.2))%nat.
Proof.
  intros Hfresh Hcap r. subst r. unfold importSession. simpl.
  rewrite map_size_insert_None by exact Hfresh. split; [reflexivity | lia].
Qed.

(** The hypotheses of [importSession_ignores_cap] are met by the store of
    a hundred sessions and an empty snapshot. *)
Lemma importSession_ignores_cap_witness :
  let snapshot :=
    {| sd_id := None; sd_mode := None; sd_workingDirectory := None;
       sd_permissionMode := None; sd_createdAt := None; sd_lastActivity := None;
       sd_toolCallCount := None; sd_isActive := None; sd_metadata := None |} in
  (maxSessions hundredSessions ≤ size (sessions hundredSessions))%nat /\
  size (sessions (importSession env1 snapshot hundredSessions).2) = 101%nat.
Proof.
  intros snapshot. split; [vm_compute; lia|].
  rewrite (proj1 (importSession_ignores_cap env1 snapshot hundredSessions
                    ltac:(vm_compute; reflexivity) ltac:(vm_compute; lia))).
  vm_compute. reflexivity.
Defined.

(** *** Statistics *)

Lemma length_filter_complement (P Q : SessionState -> Prop)
    `{!forall x, Decision (P x)} `{!forall x, Decision (Q x)} l :
  (forall x, Q x <-> ~ P x) ->
  (length (filter P l) + length (filter Q l) = length l)%nat.
Proof.
  intros HPQ. induction l as [|x l IH]; [reflexivity|].
  rewrite !filter_cons. destruct (decide (P x)) as [Hp|Hp], (decide (Q x)) as [Hq|Hq];
    simpl; try lia.
  - exfalso. apply (proj1 (HPQ x)); assumption.
  - exfalso. apply Hq, HPQ, Hp.
Qed.

(** X10. [getSessionStats] counts every stored session exactly once, as
    active or as expired: [total = active + expired], and [total] is the
    size of the store. The sessions it counts as expired are as many as
    the sweep would remove at that time. *)
Theorem getSessionStats_partition e st :
  let stats := getSessionStats e st in
  total stats = size (sessions st) /\
  (active stats + expired stats = total stats)%nat /\
  expired stats = length (expiredIds e st).
Proof.
  intros stats. subst stats. unfold getSessionStats, listSessions. cbn [total active expired].
  split; [rewrite length_fmap; apply length_map_to_list|]. split.
  - apply length_filter_complement. intros s.
    destruct (isActive s); simpl; rewrite ?bool_decide_spec; [lia | tauto].
  - unfold expiredIds, isExpired. rewrite length_fmap.
    induction (map_to_list (sessions st)) as [|[k s] l IH]; [reflexivity|].
    rewrite fmap_cons, !filter_cons. simpl.
    destruct (decide _) as [H|H]; simpl; rewrite IH; reflexivity.
Qed.

(** *** Stored sessions are active *)

(** X11. In every store the constructor and the public calls can
    produce, each stored session is active, is stored under its own
    identifier, and has a non-empty mode, working directory and permission
    mode; so [getActiveSessions] answers what [listSessions] answers. *)
Theorem reachable_sessions_active st :
  reachable st ->
  (forall sid s, sessions st !! sid = Some s ->
     isActive s = true /\ id s = sid /\ mode s <> "" /\
     workingDirectory s <> "" /\ permissionMode s <> "") /\
  getActiveSessions st = listSessions st.
Proof.
  intros Hreach. pose proof (reachable_invariant st Hreach) as Hinv.
  rewrite invariant_lookup in Hinv. split.
  - intros sid s Hs. destruct (Hinv sid s Hs) as (? & ? & ? & ? & ? & ?). auto.
  - unfold getActiveSessions, listSessions.
    assert (Hall : forall s, s ∈ (map_to_list (sessions st)).*2 -> isActive s = true).
    { intros s Hin. apply list_elem_of_fmap in Hin as (kv & Heq & Hin).
      destruct kv as [k s']. simpl in Heq. subst s'.
      apply elem_of_map_to_list in Hin. apply (Hinv k s Hin). }
    induction ((map_to_list (sessions st)).*2) as [|s l IH]; [reflexivity|].
    rewrite filter_cons. rewrite (Hall s) by left. simpl.
    rewrite IH; [reflexivity|]. intros s' Hin. apply Hall. right. exact Hin.
Qed.

(** The hypothesis of [reachable_sessions_active] is met by the store with
    two sessions. *)
Lemma reachable_twoSessions : reachable twoSessions.
Proof.
  assert (He : validEnv env1) by (split; discriminate).
  exact (reachable_perform env1
           (CallCreateSession (configWithMode "b" "bypass_permissions")) _
           reachable_oneSession He).
Defined.

Lemma reachable_sessions_active_witness :
  reachable twoSessions /\ getActiveSessions twoSessions = listSessions twoSessions.
Proof.
  split; [exact reachable_twoSessions|].
  exact (proj2 (reachable_sessions_active twoSessions reachable_twoSessions)).
Defined.

(** *** The [Map] objects of the stored sessions *)

Lemma heap_restrict st st' :
  (forall k s, sessions st' !! k = Some s -> sessions st !! k = Some s) ->
  (length (mapObjects st) ≤ length (mapObjects st'))%nat ->
  allocated st /\ unshared st -> allocated st' /\ unshared st'.
Proof.
  intros Hsub Hlen [Ha Hu]. split.
  - intros k s Hs. specialize (Ha k s (Hsub k s Hs)). lia.
  - intros k1 k2 s1 s2 H1 H2. apply Hu; auto.
Qed.

Lemma heap_touch st st' k s s' :
  sessions st !! k = Some s ->
  sessions st' = <[k := s']> (sessions st) ->
  metadata s' = metadata s ->
  (length (mapObjects st) ≤ length (mapObjects st'))%nat ->
  allocated st /\ unshared st -> allocated st' /\ unshared st'.
Proof.
  intros Hs Hst' Hmeta Hlen [Ha Hu]. split.
  - intros k0 s0. rewrite Hst', lookup_insert. case_decide as Hk.
    + intros [= <-]. rewrite Hmeta. specialize (Ha k s Hs). lia.
    + intros H0. specialize (Ha k0 s0 H0). lia.
  - intros k1 k2 s1 s2. rewrite Hst', !lookup_insert.
    case_decide as Hk1; case_decide as Hk2.
    + intros _ _ _. congruence.
    + intros [= <-] H2 Hm. rewrite <- Hk1. apply (Hu k k2 s s2); congruence.
    + intros H1 [= <-] Hm. rewrite <- Hk2. apply (Hu k1 k s1 s); congruence.
    + apply Hu.
Qed.

Lemma heap_fresh st st' k s' :
  sessions st' = <[k := s']> (sessions st) ->
  metadata s' = length (mapObjects st) ->
  (length (mapObjects st) < length (mapObjects st'))%nat ->
  allocated st /\ unshared st -> allocated st' /\ unshared st'.
Proof.
  intros Hst' Hmeta Hlen [Ha Hu]. split.
  - intros k0 s0. rewrite Hst', lookup_insert. case_decide as Hk.
    + intros [= <-]. lia.
    + intros H0. specialize (Ha k0 s0 H0). lia.
  - intros k1 k2 s1 s2. rewrite Hst', !lookup_insert.
    case_decide as Hk1; case_decide as Hk2.
    + intros _ _ _. congruence.
    + intros [= <-] H2 Hm. specialize (Ha k2 s2 H2). lia.
    + intros H1 [= <-] Hm. specialize (Ha k1 s1 H1). lia.
    + apply Hu.
Qed.

(** What [updateSession] does to a stored session, whatever the fields:
    the session stays under its key with its identifier and its [Map]. *)
Lemma updateSession_shape e sid updates st s :
  sessions st !! sid = Some s ->
  exists s',
    sessions (updateSession e sid updates st).2 = <[sid := s']> (sessions st) /\
    metadata s' = metadata s /\ id s' = id s /\
    toolCallCount s' = toolCallCount s /\
    mapObjects (updateSession e sid updates st).2 = mapObjects st /\
    (permissionManager (updateSession e sid updates st).2 = permissionManager st \/
     exists m, permissionManager (updateSession e sid updates st).2
               = Permission.setMode m (permissionManager st)).
Proof.
  intros Hs. unfold updateSession. rewrite Hs.
  destruct (changed (cfg_mode updates) (mode s)) as [m|] eqn:Hm.
  all: cbn [set_mode set_workingDirectory mode workingDirectory permissionMode].
  all: destruct (changed (cfg_workingDirectory updates) (workingDirectory s))
         as [d|] eqn:Hd.
  all: cbn [set_mode set_workingDirectory mode workingDirectory permissionMode].
  all: destruct (changed (cfg_permissionMode updates) (permissionMode s))
         as [p|] eqn:Hp.
  all: cbn [snd].
  all: repeat match goal with
       | |- context [if ?b then _ else _] => destruct b
       end.
  all: eexists; cbn; repeat split; eauto.
Qed.

Lemma heap_getSession e sid st :
  allocated st /\ unshared st ->
  allocated (getSession e sid st).2 /\ unshared (getSession e sid st).2.
Proof.
  intros H. unfold getSession. destruct (sessions st !! sid) as [s|] eqn:Hs; [|exact H].
  eapply heap_touch; [exact Hs | reflexivity | reflexivity | reflexivity | exact H].
Qed.

Lemma heap_perform e c st :
  allocated st /\ unshared st ->
  allocated (perform e c st) /\ unshared (perform e c st).
Proof.
  intros H. destruct c; cbn [perform].
  - (* createSession *)
    unfold createSession.
    set (st1 := if atCapacity st then (cleanupExpiredSessions e st).2 else st).
    assert (H1 : allocated st1 /\ unshared st1).
    { subst st1. destruct (atCapacity st); [|exact H].
      eapply heap_restrict; [| |exact H].
      - intros k s. rewrite cleanup_sessions. intros Hs.
        apply map_lookup_filter_Some in Hs as [Hs _]. exact Hs.
      - destruct (cleanup_frame e st) as (-> & _). reflexivity. }
    destruct (atCapacity st && atCapacity st1); cbn [snd]; [exact H1|].
    eapply (heap_fresh st1); [reflexivity | reflexivity | | exact H1].
    simpl. rewrite length_app. simpl. lia.
  - apply heap_getSession, H.
  - (* updateSession *)
    destruct (sessions st !! sid) as [s|] eqn:Hs.
    + destruct (updateSession_shape e sid updates st s Hs)
        as (s' & Hst' & Hmeta & _ & _ & Hobj & _).
      eapply heap_touch; [exact Hs | exact Hst' | exact Hmeta | | exact H].
      rewrite Hobj. reflexivity.
    + unfold updateSession. rewrite Hs. exact H.
  - (* destroySession *)
    eapply heap_restrict; [| |exact H].
    + intros k s. rewrite destroySession_sessions, lookup_delete.
      case_decide; [discriminate | auto].
    + destruct (destroySession_frame e sid st) as (-> & _). reflexivity.
  - (* incrementToolCall *)
    unfold incrementToolCall. destruct (sessions st !! sid) as [s|] eqn:Hs; [|exact H].
    eapply heap_touch; [exact Hs | reflexivity | reflexivity | reflexivity | exact H].
  - (* checkToolPermission *)
    unfold checkToolPermission.
    pose proof (heap_getSession e sid st H) as Hg.
    destruct (getSession e sid st) as [[copy|] st']; [|exact Hg].
    destruct (Permission.requestPermission _ _ _). exact Hg.
  - (* the timer *)
    eapply heap_restrict; [| |exact H].
    + intros k s. rewrite cleanup_sessions. intros Hs.
      apply map_lookup_filter_Some in Hs as [Hs _]. exact Hs.
    + destruct (cleanup_frame e st) as (-> & _). reflexivity.
  - (* setSessionMetadata *)
    unfold setSessionMetadata. destruct (sessions st !! sid) as [s|] eqn:Hs; [|exact H].
    eapply heap_touch; [exact Hs | reflexivity | reflexivity | | exact H].
    simpl. rewrite length_alter. reflexivity.
  - rewrite getSessionMetadata_state. apply heap_getSession, H.
  - rewrite getAllSessionMetadata_state. apply heap_getSession, H.
  - rewrite exportSession_state. apply heap_getSession, H.
  - (* importSession *)
    eapply (heap_fresh st); [reflexivity | reflexivity | | exact H].
    simpl. rewrite length_app. simpl. lia.
  - (* destroyAllSessions *)
    unfold destroyAllSessions.
    destruct (destroy_counting e (map_to_list (sessions st)) 0 st)
      as (_ & H2 & _ & H4 & _).
    { apply NoDup_fst_map_to_list. }
    { intros k s. apply elem_of_map_to_list. }
    eapply heap_restrict; [| |exact H].
    + intros k s. rewrite H2, lookup_delete_each.
      destruct (decide _); [discriminate | auto].
    + rewrite H4. reflexivity.
  - eapply heap_restrict; [| |exact H]; [auto|].
    simpl. rewrite length_alter. reflexivity.
  - eapply heap_restrict; [| |exact H]; [auto|].
    simpl. rewrite length_alter. reflexivity.
Qed.

Lemma reachable_heap st : reachable st -> allocated st /\ unshared st.
Proof.
  induction 1 as [|e c st _ IH _].
  - split.
    + intros k s Hs. simpl in Hs. rewrite lookup_empty in Hs. discriminate.
    + intros k1 k2 s1 s2 Hs. simpl in Hs. rewrite lookup_empty in Hs. discriminate.
  - apply heap_perform, IH.
Qed.

(** X12. In a reachable store, a value written with [setSessionMetadata]
    is what [getSessionMetadata] reads back under that key, and the other
    keys of the session read as before. *)
Theorem setSessionMetadata_then_get e e' sid key value st s :
  reachable st ->
  sessions st !! sid = Some s ->
  let written := setSessionMetadata e sid key value st in
  written.1 = true /\
  (getSessionMetadata e' sid key written.2).1 = Some value /\
  (forall key', key' <> key ->
     (getSessionMetadata e' sid key' written.2).1
     = (getSessionMetadata e' sid key' st).1).
Proof.
  intros Hreach Hs written. subst written.
  destruct (reachable_heap st Hreach) as [Ha _].
  destruct (lookup_lt_is_Some_2 (mapObjects st) (metadata s) (Ha sid s Hs)) as [m Hm].
  unfold setSessionMetadata. rewrite Hs. cbn [fst snd].
  split; [reflexivity|].
  unfold getSessionMetadata, getSession. cbn [sessions with_sessions Map_set
    with_mapObjects]. rewrite lookup_insert_eq, Hs. cbn [fst snd].
  unfold deref, Map_set. cbn [mapObjects with_sessions with_mapObjects metadata
    set_lastActivity]. rewrite list_lookup_alter_eq, Hm. cbn [fmap option_fmap
    option_map default]. split.
  - apply lookup_insert_eq.
  - intros key' Hne. unfold loc in *. rewrite Hm. simpl.
    apply lookup_insert_ne. congruence.
Qed.

Lemma setSessionMetadata_then_get_witness :
  reachable oneSession /\
  (getSessionMetadata env1 "a" "k"
     (setSessionMetadata env1 "a" "k" (VNum 3) oneSession).2).1 = Some (VNum 3).
Proof.
  split; [exact reachable_oneSession|].
  destruct (sessions oneSession !! "a") as [s|] eqn:Hs;
    [|vm_compute in Hs; discriminate].
  exact (proj1 (proj2 (setSessionMetadata_then_get env1 env1 "a" "k" (VNum 3)
                         oneSession s reachable_oneSession Hs))).
Defined.

(** X13. In a reachable store no two sessions share a metadata [Map]:
    writing the metadata of one session with [setSessionMetadata] leaves
    the metadata of every other session as it was. *)
Theorem setSessionMetadata_isolated e e' sid other key value st s s' :
  reachable st ->
  sessions st !! sid = Some s ->
  sessions st !! other = Some s' ->
  other <> sid ->
  (getAllSessionMetadata e' other (setSessionMetadata e sid key value st).2).1
  = (getAllSessionMetadata e' other st).1.
Proof.
  intros Hreach Hs Hs' Hne.
  destruct (reachable_heap st Hreach) as [_ Hu].
  assert (Hloc : metadata s <> metadata s').
  { intros Heq. apply Hne. symmetry. exact (Hu sid other s s' Hs Hs' Heq). }
  unfold setSessionMetadata. rewrite Hs. cbn [snd].
  unfold getAllSessionMetadata, getSession. cbn [sessions with_sessions Map_set
    with_mapObjects]. rewrite lookup_insert_ne by congruence. rewrite Hs'.
  cbn [fst snd]. unfold deref, Map_set. cbn [mapObjects with_sessions
    with_mapObjects metadata set_lastActivity].
  rewrite list_lookup_alter_ne by exact Hloc. reflexivity.
Qed.

Lemma setSessionMetadata_isolated_witness :
  reachable twoSessions /\
  (getAllSessionMetadata env1 "b"
     (setSessionMetadata env1 "a" "k" (VNum 3) twoSessions).2).1 = ∅.
Proof.
  split; [exact reachable_twoSessions|].
  destruct (sessions twoSessions !! "a") as [s|] eqn:Hs;
    [|vm_compute in Hs; discriminate].
  destruct (sessions twoSessions !! "b") as [s'|] eqn:Hs';
    [|vm_compute in Hs'; discriminate].
  rewrite (setSessionMetadata_isolated env1 env1 "a" "b" "k" (VNum 3)
             twoSessions s s' reachable_twoSessions Hs Hs' ltac:(discriminate)).
  vm_compute. reflexivity.
Defined.

(** *** The permission policy of the store *)

Lemma policy_getSession e sid st :
  permissionManager (getSession e sid st).2 = permissionManager st.
Proof. unfold getSession. destruct (sessions st !! sid); reflexivity. Qed.

(** Every call on the store leaves the policy alone or makes one call on
    it: the policy of a reachable store is a reachable policy. *)
Lemma policy_perform e c st :
  Permission.reachable (permissionManager st) ->
  Permission.reachable (permissionManager (perform e c st)).
Proof.
  intros H. destruct c; cbn [perform].
  - unfold createSession.
    set (st1 := if atCapacity st then (cleanupExpiredSessions e st).2 else st).
    assert (H1 : permissionManager st1 = permissionManager st).
    { subst st1. destruct (atCapacity st); [apply cleanup_frame | reflexivity]. }
    destruct (atCapacity st && atCapacity st1); cbn; rewrite H1; [exact H|].
    exact (Permission.reachable_perform (Permission.CallSetMode _) _ H).
  - rewrite policy_getSession. exact H.
  - destruct (sessions st !! sid) as [s|] eqn:Hs.
    + destruct (updateSession_shape e sid updates st s Hs)
        as (s' & _ & _ & _ & _ & _ & [-> | [m ->]]); [exact H|].
      exact (Permission.reachable_perform (Permission.CallSetMode m) _ H).
    + unfold updateSession. rewrite Hs. exact H.
  - destruct (destroySession_frame e sid st) as (_ & -> & _). exact H.
  - unfold incrementToolCall. destruct (sessions st !! sid); exact H.
  - unfold checkToolPermission.
    pose proof (policy_getSession e sid st) as Hg.
    destruct (getSession e sid st) as [[copy|] st']; cbn in Hg.
    + destruct (Permission.requestPermission (now e) tool (permissionManager st'))
        as [b pm] eqn:Hr. cbn. rewrite Hg in Hr.
      replace pm
        with (Permission.requestPermission (now e) tool (permissionManager st)).2
        by (rewrite Hr; reflexivity).
      exact (Permission.reachable_perform
               (Permission.CallRequestPermission (now e) tool) _ H).
    + cbn. rewrite Hg. exact H.
  - destruct (cleanup_frame e st) as (_ & -> & _). exact H.
  - unfold setSessionMetadata. destruct (sessions st !! sid); exact H.
  - rewrite getSessionMetadata_state, policy_getSession. exact H.
  - rewrite getAllSessionMetadata_state, policy_getSession. exact H.
  - rewrite exportSession_state, policy_getSession. exact H.
  - unfold importSession. cbn.
    exact (Permission.reachable_perform (Permission.CallSetMode _) _ H).
  - unfold destroyAllSessions.
    destruct (destroy_counting e (map_to_list (sessions st)) 0 st)
      as (_ & _ & _ & _ & ->); [apply NoDup_fst_map_to_list | | exact H].
    intros k s. apply elem_of_map_to_list.
  - exact H.
  - exact H.
Qed.

Lemma reachable_policy st :
  reachable st -> Permission.reachable (permissionManager st).
Proof.
  induction 1 as [|e c st _ IH _].
  - apply Permission.reachable_new.
  - apply policy_perform, IH.
Qed.

(** X14. The store has one permission policy for all its sessions, and
    the policy follows the mode of the session created last. After a
    session is created in plan mode, [checkToolPermission] denies every
    tool for every other session too, whatever the mode that session was
    created with and still carries. *)
Theorem checkToolPermission_follows_last_mode e e' config st sid s tool :
  reachable st ->
  sessions st !! sid = Some s ->
  (size (sessions st) < maxSessions st)%nat ->
  or_str (cfg_mode config) "default" = "plan" ->
  or_str (cfg_id config) (uuid e) <> sid ->
  let st' := (createSession e config st).2 in
  sessions st' !! sid = Some s /\
  (checkToolPermission e' sid tool st').1 = false.
Proof.
  intros Hreach Hs Hlt Hplan Hother st'. subst st'.
  destruct (reachable_builtin _ (reachable_policy st Hreach)) as [Hmodes _].
  rewrite (createSession_below_cap e config st Hlt). cbn zeta. cbn [snd mode].
  rewrite Hplan.
  split.
  - cbn. rewrite lookup_insert_ne by exact Hother. exact Hs.
  - unfold checkToolPermission, getSession.
    cbn [sessions emit with_permissionManager with_sessions with_mapObjects
      alloc snd].
    rewrite lookup_insert_ne by exact Hother. rewrite Hs.
    cbn [permissionManager emit with_permissionManager with_sessions
      with_mapObjects fst snd].
    erewrite setMode_registered by (rewrite Hmodes; apply lookup_plan).
    rewrite Hmodes, requestPermission_plan. reflexivity.
Qed.

(** The hypotheses of [checkToolPermission_follows_last_mode] are met by
    the store with the sessions ["a"] and ["b"], the latter in
    bypass_permissions mode: before a session ["c"] is created in plan
    mode read_file is approved for ["b"], afterwards it is denied. *)
Lemma checkToolPermission_follows_last_mode_witness :
  reachable twoSessions /\
  mode <$> sessions twoSessions !! "b" = Some "bypass_permissions" /\
  (checkToolPermission env1 "b" "read_file" twoSessions).1 = true /\
  (checkToolPermission env1 "b" "read_file"
     (createSession env1 (configWithMode "c" "plan") twoSessions).2).1 = false.
Proof.
  split; [exact reachable_twoSessions|].
  split; [vm_compute; reflexivity|]. split; [vm_compute; reflexivity|].
  destruct (sessions twoSessions !! "b") as [s|] eqn:Hs;
    [|vm_compute in Hs; discriminate].
  refine (proj2 (checkToolPermission_follows_last_mode env1 env1
                   (configWithMode "c" "plan") twoSessions "b" s "read_file"
                   reachable_twoSessions Hs _ eq_refl _)).
  - vm_compute. lia.
  - discriminate.
Defined.

(** *** Updates *)

Lemma changed_asksNoChange u current :
  asksNoChange u current -> changed u current = None.
Proof.
  unfold changed. intros [-> | [-> | ->]]; [reflexivity | reflexivity |].
  repeat case_bool_decide; congruence.
Qed.

Lemma changed_asked m current :
  m <> "" -> m <> current -> changed (Some m) current = Some m.
Proof.
  intros H1 H2. unfold changed. rewrite !bool_decide_eq_false_2 by assumption.
  reflexivity.
Qed.

(** X15. An update that asks for no change (each field absent, empty or
    equal to the stored value) answers [true], emits no event, leaves the
    policy alone and has exactly the effect of [getSession] on the store:
    only [lastActivity] moves. On an unknown identifier the update
    answers [false] and changes nothing. *)
Theorem updateSession_without_change e sid updates st :
  (sessions st !! sid = None -> updateSession e sid updates st = (false, st)) /\
  (forall s, sessions st !! sid = Some s ->
     asksNoChange (cfg_mode updates) (mode s) ->
     asksNoChange (cfg_workingDirectory updates) (workingDirectory s) ->
     asksNoChange (cfg_permissionMode updates) (permissionMode s) ->
     updateSession e sid updates st = (true, (getSession e sid st).2)).
Proof.
  split.
  - intros H. unfold updateSession. rewrite H. reflexivity.
  - intros s Hs Hm Hd Hp. unfold updateSession, getSession. rewrite Hs.
    rewrite (changed_asksNoChange _ _ Hm), (changed_asksNoChange _ _ Hd),
      (changed_asksNoChange _ _ Hp). reflexivity.
Qed.

(** X16. An update of the mode alone stores the new mode, emits an
    [updated] event and then a [mode_changed] event, and hands the mode to
    the policy with [setMode]. When the policy does not know the mode, the
    session carries the new mode all the same while the policy stays as
    it was. *)
Theorem updateSession_mode e sid updates st s m :
  sessions st !! sid = Some s ->
  cfg_mode updates = Some m -> m <> "" -> m <> mode s ->
  asksNoChange (cfg_workingDirectory updates) (workingDirectory s) ->
  asksNoChange (cfg_permissionMode updates) (permissionMode s) ->
  let r := updateSession e sid updates st in
  r.1 = true /\
  sessions r.2 = <[sid := set_lastActivity (now e) (set_mode m s)]> (sessions st) /\
  emitted r.2
  = (emitted st ++
     [{| type := updated; sessionId := sid; timestamp := now e;
         data := DChanges ["mode: " +:+ m] |};
      {| type := mode_changed; sessionId := sid; timestamp := now e;
         data := DModeChanged (mode s) m |}])%list /\
  permissionManager r.2 = Permission.setMode m (permissionManager st) /\
  (Permission.modes (permissionManager st) !! m = None ->
   permissionManager r.2 = permissionManager st).
Proof.
  intros Hs Hmode Hne Hdiff Hd Hp r. subst r.
  unfold updateSession. rewrite Hs, Hmode, (changed_asked m _ Hne Hdiff).
  cbn [set_mode workingDirectory permissionMode].
  rewrite (changed_asksNoChange _ _ Hd).
  cbn [set_mode workingDirectory permissionMode].
  rewrite (changed_asksNoChange _ _ Hp).
  rewrite bool_decide_eq_true_2 by (simpl; lia).
  cbn [mode set_lastActivity set_mode].
  rewrite (bool_decide_eq_false_2 (mode s = m)) by congruence.
  cbn. rewrite <- app_assoc. repeat split; try reflexivity.
  intros Hunknown. apply setMode_unregistered, Hunknown.
Qed.

(** The hypotheses of [updateSession_mode] are met by an update of the
    session ["a"] to a mode the policy does not know. *)
Lemma updateSession_mode_witness :
  mode <$> sessions oneSession !! "a" = Some "default" /\
  (updateSession env1 "a" (configWithMode "a" "turbo") oneSession).1 = true.
Proof.
  split; [vm_compute; reflexivity|].
  destruct (sessions oneSession !! "a") as [s|] eqn:Hs;
    [|vm_compute in Hs; discriminate].
  assert (Hmode : mode s = "default")
    by (vm_compute in Hs; injection Hs as <-; reflexivity).
  refine (proj1 (updateSession_mode env1 "a" (configWithMode "a" "turbo")
                   oneSession s "turbo" Hs eq_refl _ _ _ _)).
  - discriminate.
  - rewrite Hmode. discriminate.
  - left. reflexivity.
  - left. reflexivity.
Defined.

End SessionCoverage.

(** * Properties of the session utilities *)

Section SessionUtilsFacts.
Import SessionUtils.

(** X17. For a session created at or before [now], both times and the
    duration between them being safe integers, [formatSessionDuration]
    prints whole minutes and the remaining whole seconds: the seconds are
    between 0 and 59, the minutes are not negative, and together they are
    the duration rounded down to the second. *)
Theorem formatSessionDuration_parts now session :
  isSafeInteger now -> isSafeInteger (Session.createdAt session) ->
  0 ≤ now - Session.createdAt session ≤ MAX_SAFE_INTEGER ->
  let duration := now - Session.createdAt session in
  formatSessionDuration now session
  = pretty (minutesOf duration) +:+ "m " +:+ pretty (secondsOf duration) +:+ "s" /\
  0 ≤ minutesOf duration /\
  0 ≤ secondsOf duration ≤ 59 /\
  60000 * minutesOf duration + 1000 * secondsOf duration ≤ duration
    < 60000 * minutesOf duration + 1000 * secondsOf duration + 1000.
Proof.
  intros _ _ Hle duration. split; [reflexivity|].
  assert (Hd : 0 ≤ duration) by (subst duration; lia).
  unfold minutesOf, secondsOf. generalize dependent duration. intros d Hd.
  rewrite Z.rem_mod_nonneg by lia.
  pose proof (Z.div_mod d 60000 ltac:(lia)) as H1.
  pose proof (Z.mod_pos_bound d 60000 ltac:(lia)) as H2.
  pose proof (Z.div_mod (d `mod` 60000) 1000 ltac:(lia)) as H3.
  pose proof (Z.mod_pos_bound (d `mod` 60000) 1000 ltac:(lia)) as H4.
  assert (0 ≤ d `div` 60000) by (apply Z.div_pos; lia).
  assert (0 ≤ (d `mod` 60000) `div` 1000) by (apply Z.div_pos; lia).
  assert ((d `mod` 60000) `div` 1000 ≤ 59).
  { apply Z.lt_succ_r. apply Z.div_lt_upper_bound; lia. }
  repeat split; lia.
Qed.

(** The hypothesis of [formatSessionDuration_parts] is met 125.5 seconds
    after the creation of a session: the text is ["2m 5s"]. *)
Lemma formatSessionDuration_parts_witness :
  let session :=
    {| Session.id := "a"; Session.mode := "default";
       Session.workingDirectory := "/work"; Session.permissionMode := "yolo";
       Session.createdAt := 1000; Session.lastActivity := 1000;
       Session.toolCallCount := 0; Session.isActive := true;
       Session.metadata := 0%nat |} in
  0 ≤ 126500 - Session.createdAt session ≤ MAX_SAFE_INTEGER /\
  formatSessionDuration 126500 session = "2m 5s".
Proof.
  intros session.
  assert (H1 : isSafeInteger 126500)
    by (unfold isSafeInteger, MAX_SAFE_INTEGER; lia).
  assert (H2 : isSafeInteger (Session.createdAt session))
    by (unfold isSafeInteger, MAX_SAFE_INTEGER; cbn; lia).
  assert (H3 : 0 ≤ 126500 - Session.createdAt session ≤ MAX_SAFE_INTEGER)
    by (unfold MAX_SAFE_INTEGER; cbn; lia).
  split; [exact H3|].
  rewrite (proj1 (formatSessionDuration_parts 126500 session H1 H2 H3)).
  vm_compute. reflexivity.
Defined.

End SessionUtilsFacts.

(** * Further properties of the tool converter *)

Section ToolConverterCoverage.
Import Types ToolConverter.

Lemma or_str_name n : or_str (Some n) "" = n.
Proof. unfold or_str. case_bool_decide; congruence. Qed.

Lemma initializeMappings_Forall (P : ToolMapping -> Prop) ms c :
  Forall P ms -> map_Forall (fun _ => P) (mappings c) ->
  map_Forall (fun _ => P) (mappings (initializeMappings ms c)).
Proof.
  unfold initializeMappings. revert c.
  induction ms as [|m ms IH]; intros c Hms Hc; [exact Hc|].
  apply Forall_cons in Hms as [Hm Hms]. cbn [foldl]. apply IH; [exact Hms|].
  cbn [mappings]. apply map_Forall_insert_2; assumption.
Qed.

Lemma default_transforms_never_throw :
  map_Forall (fun _ => neverThrows) (mappings defaultToolConverter).
Proof.
  apply initializeMappings_Forall; [|apply map_Forall_empty].
  unfold DEFAULT_TOOL_MAPPINGS.
  repeat (apply Forall_cons; split;
          [intros f arg [= <-]; eexists; reflexivity|]).
  apply Forall_nil. exact I.
Qed.

(** X18. [convertToKode] answers an internal call only for a call whose
    name is non-empty and among [getSupportedTools]. For such a name, it
    answers [null] when the transform of the mapping throws; otherwise
    the internal call carries the internal name of the mapping, the
    transformed input (of an empty object when the call has no input; the
    input itself when the mapping has no transform) and the identifier of
    the call, or the generated one when the call has none. No transform
    of the default mappings throws, so the default converter converts
    exactly the calls with a supported name. A call without a name gives
    no internal call. *)
Theorem convertToKode_supported toolId n input i c :
  let call := {| call_name := Some n; call_input := input; call_id := i |} in
  let arg := if truthy input then input else JObj [] in
  (is_Some (convertToKode toolId (Some call) c)
   -> n <> "" /\ n ∈ getSupportedTools c) /\
  (forall mapping, n <> "" -> mappings c !! n = Some mapping ->
     convertToKode toolId (Some call) c
     = match transform mapping with
       | Some f =>
           match f arg with
           | Some out => Some {| name := toKode mapping; input := out;
                                 id := Some (or_str i toolId) |}
           | None => None
           end
       | None => Some {| name := toKode mapping; input := arg;
                         id := Some (or_str i toolId) |}
       end) /\
  (is_Some (convertToKode toolId (Some call) defaultToolConverter)
   <-> n <> "" /\ n ∈ getSupportedTools defaultToolConverter) /\
  convertToKode toolId None c = None /\
  convertToKode toolId
    (Some {| call_name := None; call_input := input; call_id := i |}) c = None.
Proof.
  intros call arg. subst call arg.
  assert (Hsupp : forall c', is_Some (convertToKode toolId
             (Some {| call_name := Some n; call_input := input; call_id := i |}) c')
           -> n <> "" /\ n ∈ getSupportedTools c').
  { intros c'. unfold convertToKode, getSupportedTools.
    cbn [call_name call_input call_id]. rewrite or_str_name.
    case_bool_decide as Hn; [intros [? ?]; discriminate|].
    destruct (mappings c' !! n) as [mapping|] eqn:Hm;
      [|intros [? ?]; discriminate].
    intros _. split; [exact Hn|].
    apply elem_of_map_to_list in Hm. apply (list_elem_of_fmap_2 fst) in Hm.
    exact Hm. }
  assert (Hcall : forall c' mapping, n <> "" -> mappings c' !! n = Some mapping ->
     convertToKode toolId
       (Some {| call_name := Some n; call_input := input; call_id := i |}) c'
     = match transform mapping with
       | Some f =>
           match f (if truthy input then input else JObj []) with
           | Some out => Some {| name := toKode mapping; input := out;
                                 id := Some (or_str i toolId) |}
           | None => None
           end
       | None => Some {| name := toKode mapping;
                         input := if truthy input then input else JObj [];
                         id := Some (or_str i toolId) |}
       end).
  { intros c' mapping Hn Hm. unfold convertToKode.
    cbn [call_name call_input call_id]. rewrite or_str_name.
    rewrite bool_decide_eq_false_2 by exact Hn. rewrite Hm.
    destruct (transform mapping); reflexivity. }
  split; [apply Hsupp|]. split; [apply Hcall|].
  split; [|split; reflexivity].
  split; [apply Hsupp|]. intros [Hn Hin].
  unfold getSupportedTools in Hin.
  apply list_elem_of_fmap in Hin as ([k mapping] & Hk & Hin).
  simpl in Hk. subst k. apply elem_of_map_to_list in Hin.
  rewrite (Hcall _ _ Hn Hin).
  pose proof (default_transforms_never_throw n mapping Hin) as Hnt.
  destruct (transform mapping) as [f|] eqn:Hf; [|eexists; reflexivity].
  destruct (Hnt f (if truthy input then input else JObj []) Hf) as [out ->].
  eexists. reflexivity.
Qed.

(** X19. Registering a mapping under two unused names and removing it
    again gives back the converter as it was; removing a name that is not
    registered changes nothing, so a removal done twice is a removal done
    once. *)
Theorem removeMapping_undoes_addMapping mapping c :
  (mappings c !! fromACP mapping = None ->
   reverseMappings c !! toKode mapping = None ->
   removeMapping (fromACP mapping) (addMapping mapping c) = c) /\
  (forall n, mappings c !! n = None -> removeMapping n c = c) /\
  (forall n, removeMapping n (removeMapping n c) = removeMapping n c).
Proof.
  split; [|split].
  - intros Hext Hint. unfold removeMapping, addMapping. cbn [mappings reverseMappings].
    rewrite lookup_insert_eq. rewrite !delete_insert_id by assumption.
    destruct c. reflexivity.
  - intros n Hn. unfold removeMapping. rewrite Hn. reflexivity.
  - intros n. unfold removeMapping at 2.
    destruct (mappings c !! n) as [m|] eqn:Hn.
    + unfold removeMapping at 1. cbn [mappings]. rewrite lookup_delete_eq.
      unfold removeMapping. rewrite Hn. reflexivity.
    + unfold removeMapping. rewrite Hn. reflexivity.
Qed.

(** X20. The two indices stay consistent under every sequence of
    registrations and removals, run from a converter whose indices are
    consistent (the default one is), in which each registration uses an
    external and an internal name that are both unused at that moment. *)
Theorem mutations_keep_consistent ms c :
  consistent c -> registersFresh ms c -> consistent (foldl mutate c ms).
Proof.
  revert c. induction ms as [|m ms IH]; intros c Hc Hms; [exact Hc|].
  destruct Hms as [Hm Hms]. cbn [foldl]. apply IH; [|exact Hms].
  destruct m as [mapping|n]; cbn [mutate].
  - destruct Hm as [Hext Hint]. apply consistent_addMapping_fresh; assumption.
  - apply consistent_removeMapping, Hc.
Qed.

(** The hypotheses of [mutations_keep_consistent] are met by the default
    converter and the sequence that removes ['read_file'], registers it
    again for ['Reader'] and registers a new tool. *)
Lemma mutations_keep_consistent_witness :
  let ms := [Remove "read_file"; Add readFileAsReader; Add listDirectory] in
  consistent defaultToolConverter /\
  registersFresh ms defaultToolConverter /\
  consistent (foldl mutate defaultToolConverter ms).
Proof.
  intros ms.
  assert (Hfresh : registersFresh ms defaultToolConverter)
    by (vm_compute; repeat split; reflexivity).
  split; [exact consistent_default|]. split; [exact Hfresh|].
  exact (mutations_keep_consistent ms defaultToolConverter consistent_default Hfresh).
Defined.

End ToolConverterCoverage.

(** * Further properties of the model registry *)

Section MultiModelCoverage.
Import MultiModel.

(** X21. [executeInParallel] answers one entry per request, the [i]-th
    entry being that of the [i]-th request. The entry carries an error
    exactly when the name its request resolves to has no profile, whatever
    the other requests are; an entry without error carries the resolved
    name, and the entry of a request that names its model explicitly
    carries that name in both cases. *)
Theorem executeInParallel_entries requests mm :
  length (executeInParallel requests mm) = length requests /\
  (forall i r, requests !! i = Some r ->
     exists entry,
       executeInParallel requests mm !! i = Some entry /\
       (is_Some (error entry) <->
        modelProfiles mm !! or_str (Some (requestedModel r mm)) (currentModel mm)
        = None) /\
       (error entry = None -> entry_model entry = requestedModel r mm) /\
       (forall n, modelName r = Some n -> n <> "" -> entry_model entry = n)).
Proof.
  split; [apply executeInParallel_length|].
  intros i r Hr. exists (settle mm r).
  rewrite executeInParallel_lookup, Hr. split; [reflexivity|].
  pose proof (settle_error mm r) as Hs. cbv zeta in Hs.
  destruct (modelProfiles mm !! _) as [p|]; rewrite Hs; cbn [error entry_model].
  - split; [|split].
    + split; [intros [? ?]; discriminate | discriminate].
    + reflexivity.
    + intros n Hn Hne. unfold requestedModel. rewrite Hn. apply or_str_Some, Hne.
  - split; [|split].
    + split; [reflexivity | intros _; eexists; reflexivity].
    + discriminate.
    + intros n Hn Hne. rewrite Hn. apply or_str_Some, Hne.
Qed.

Lemma foldl_insert_profiles (l : list (string * ModelProfile))
    (m0 : gmap string ModelProfile) :
  NoDup l.*1 ->
  foldl (fun m kv => <[kv.1 := kv.2]> m) m0 l = list_to_map l ∪ m0.
Proof.
  revert m0. induction l as [|[k v] l IH]; intros m0 Hnd; simpl.
  - symmetry. apply (left_id_L ∅ (∪)).
  - inversion Hnd as [|? ? Hk Hl]; subst.
    rewrite IH by assumption.
    rewrite <- insert_union_r by (apply not_elem_of_list_to_map_1, Hk).
    apply insert_union_l.
Qed.

Lemma profiles_through_object (m : gmap string ModelProfile) :
  foldl (fun acc kv => <[kv.1 := kv.2]> acc) ∅ (map_to_list m) = m.
Proof.
  rewrite foldl_insert_profiles by apply NoDup_fst_map_to_list.
  rewrite list_to_map_to_list. apply (right_id_L ∅ (∪)).
Qed.

Lemma assignProperty_lookup (l : list (string * ModelProfile))
    (acc : gmap string ModelProfile) (k : string) :
  NoDup l.*1 ->
  foldl assignProperty acc l !! k
  = if bool_decide (k = "__proto__") then acc !! k
    else match (list_to_map l : gmap string ModelProfile) !! k with
         | Some p => Some p
         | None => acc !! k
         end.
Proof.
  revert acc. induction l as [|[k' p'] l IH]; intros acc Hnd.
  - cbn. rewrite lookup_empty. by case_bool_decide.
  - rewrite fmap_cons in Hnd. apply NoDup_cons in Hnd as [Hk' Hnd].
    cbn [foldl]. rewrite (IH _ Hnd). cbn [list_to_map foldr fst snd curry].
    unfold assignProperty. cbn [fst snd].
    case_bool_decide as Hk; [|].
    + subst k. case_bool_decide as Hk2; [reflexivity|].
      by rewrite lookup_insert_ne.
    + destruct (decide (k = k')) as [->|Hne].
      * rewrite lookup_insert_eq.
        rewrite (not_elem_of_list_to_map_1 _ _ Hk').
        rewrite bool_decide_eq_false_2 by exact Hk.
        by rewrite lookup_insert_eq.
      * rewrite (lookup_insert_ne _ k' k) by congruence.
        destruct (list_to_map l !! k); [reflexivity|].
        case_bool_decide; [reflexivity|].
        by rewrite lookup_insert_ne.
Qed.

Lemma object_of_profiles (m : gmap string ModelProfile) :
  foldl assignProperty ∅ (map_to_list m) = delete "__proto__" m.
Proof.
  apply map_eq. intros k.
  rewrite assignProperty_lookup by apply NoDup_fst_map_to_list.
  rewrite list_to_map_to_list, lookup_empty.
  case_bool_decide as Hk.
  - subst k. by rewrite lookup_delete_eq.
  - rewrite lookup_delete_ne by congruence. by destruct (m !! k).
Qed.

(** X22. Importing what [exportConfig] wrote gives the importing manager
    the pointers of the exporting one and its profiles, except a profile
    named [__proto__], which the object of [exportConfig] does not hold.
    When there is no such profile, the importing manager takes over the
    current model too, but only when that name is non-empty and has a
    profile, and is then equal to the exporting one; when the current
    model has no profile the importing manager keeps the current model it
    had, with or without a profile for it. *)
Theorem importConfig_exportConfig mm mm0 :
  let mm' := importConfig (exportConfig mm) mm0 in
  modelProfiles mm' = delete "__proto__" (modelProfiles mm) /\
  modelPointers mm' = modelPointers mm /\
  (modelProfiles mm !! "__proto__" = None ->
   currentModel mm <> "" -> is_Some (modelProfiles mm !! currentModel mm) ->
   mm' = mm) /\
  (modelProfiles mm !! currentModel mm = None ->
   currentModel mm' = currentModel mm0).
Proof.
  intros mm'. subst mm'. unfold importConfig, exportConfig.
  cbn [config_modelProfiles config_modelPointers config_currentModel
       modelProfiles modelPointers currentModel default].
  rewrite object_of_profiles, !profiles_through_object.
  split; [reflexivity|]. split; [reflexivity|]. split.
  - intros Hproto Hne Hsome. rewrite (delete_id _ _ Hproto).
    rewrite (bool_decide_eq_false_2 _ Hne).
    rewrite (bool_decide_eq_true_2 _ Hsome). destruct mm. reflexivity.
  - intros Hnone. rewrite (bool_decide_eq_false_2 (is_Some _)).
    + rewrite andb_false_r. reflexivity.
    + intros [x Hx]. apply lookup_delete_Some in Hx as [_ Hx]. congruence.
Qed.

(** X23. [removeModelProfile] does not look at the current model:
    removing the profile of the current model leaves the name in place,
    and a dispatch that names no model is then rejected with "Model
    profile not found", until another model is made current. *)
Theorem removeModelProfile_current_dangles prompt options mm :
  let r := removeModelProfile (currentModel mm) mm in
  r.1 = bool_decide (is_Some (modelProfiles mm !! currentModel mm)) /\
  currentModel r.2 = currentModel mm /\
  getCurrentModelProfile r.2 = None /\
  executeWithModel prompt None options r.2
  = Rejected ("Model profile not found: " +:+ currentModel mm) /\
  (setCurrentModel (currentModel mm) r.2).1 = false.
Proof.
  intros r. subst r. unfold removeModelProfile. cbn [fst snd].
  split; [reflexivity|]. split; [reflexivity|].
  unfold getCurrentModelProfile, executeWithModel, setCurrentModel.
  cbn [modelProfiles currentModel or_str]. rewrite lookup_delete_eq.
  split; [reflexivity|]. split; [reflexivity|].
  rewrite bool_decide_eq_false_2 by (intros [? ?]; discriminate). reflexivity.
Qed.

End MultiModelCoverage.

(** * Further properties of the router *)

Section AgentCoverage.
Import Types Agent.

Ltac known_type H :=
  solve [ exfalso; apply H; unfold knownTypes;
          repeat first [ apply list_elem_of_here | apply list_elem_of_further ] ].

Ltac unknown_type s H :=
  first
    [ reflexivity
    | known_type H
    | let c := fresh "c" in
      let s' := fresh "s" in
      destruct s as [|c s'];
      [ first [ reflexivity | known_type H ]
      | destruct c as [[] [] [] [] [] [] [] []];
        first [ reflexivity | unknown_type s' H ] ] ].

Ltac unknown_command cmd Hs Ha :=
  first
    [ solve [ cbn; auto 6 ]
    | solve [ exfalso; apply Hs; reflexivity ]
    | solve [ exfalso; apply Ha; reflexivity ]
    | let c := fresh "c" in
      let cmd' := fresh "cmd" in
      destruct cmd as [|c cmd'];
      [ first [ solve [ exfalso; apply Hs; reflexivity ]
              | solve [ exfalso; apply Ha; reflexivity ]
              | solve [ cbn; auto 6 ] ]
      | destruct c as [[] [] [] [] [] [] [] []];
        unknown_command cmd' Hs Ha ] ].

(** The last arm of the [switch]: the text of the message type is
    compared character by character with the six kinds. *)
Lemma handleMessage_default executeTool e m a :
  type m ∉ knownTypes ->
  handleMessage executeTool e m a
  = (error ("Unknown message type: " +:+ type m), a).
Proof.
  unfold handleMessage. generalize (type m). intros s Hs.
  unknown_type s Hs.
Qed.

Lemma handleToolCall_frame executeTool e m a :
  let r := handleToolCall executeTool e m a in
  config r.2 = config a /\ sessions r.2 = sessions a /\
  multiModelManager r.2 = multiModelManager a.
Proof.
  unfold handleToolCall. destruct (toolCall m) as [tc|]; [|auto].
  case_bool_decide; [auto|].
  destruct (sessions a !! _); [|auto].
  destruct (executeTool _); auto.
Qed.

Lemma handleModelCommand_frame m a :
  let r := handleModelCommand m a in
  config r.2 = config a /\ sessions r.2 = sessions a /\ actions r.2 = actions a /\
  MultiModel.modelProfiles (multiModelManager r.2)
  = MultiModel.modelProfiles (multiModelManager a) /\
  MultiModel.modelPointers (multiModelManager r.2)
  = MultiModel.modelPointers (multiModelManager a).
Proof.
  assert (Hset : forall n mm,
            MultiModel.modelProfiles (MultiModel.setCurrentModel n mm).2
            = MultiModel.modelProfiles mm /\
            MultiModel.modelPointers (MultiModel.setCurrentModel n mm).2
            = MultiModel.modelPointers mm).
  { intros n mm. unfold MultiModel.setCurrentModel. case_bool_decide; auto. }
  unfold handleModelCommand.
  destruct (command m) as [cmd|]; [|cbn; auto 6].
  destruct (decide (cmd = "switch")) as [->|Hs].
  - destruct (negb _ && _); cbn; [|auto 6].
    destruct (Hset (or_str (modelName m) "") (multiModelManager a)). auto 6.
  - destruct (decide (cmd = "ask")) as [->|Ha].
    + destruct (_ || _); [cbn; auto 6|].
      destruct (MultiModel.getModelProfile _ _); [|cbn; auto 6].
      destruct (MultiModel.executeWithModel _ _ _ _); cbn; auto 6.
    + clear Hset. unknown_command cmd Hs Ha.
Qed.

(** X24. What a message can change. No message changes the
    configuration, the model profiles or the purpose pointers. Only a
    new_session message changes the session table, only a model_command
    message changes the current model, and only a tool_call message calls
    a collaborator. A message of any other type than the six kinds is
    answered with an error that names the type, and changes nothing. *)
Theorem handleMessage_frame executeTool e m a :
  let r := handleMessage executeTool e m a in
  config r.2 = config a /\
  MultiModel.modelProfiles (multiModelManager r.2)
  = MultiModel.modelProfiles (multiModelManager a) /\
  MultiModel.modelPointers (multiModelManager r.2)
  = MultiModel.modelPointers (multiModelManager a) /\
  (type m <> "new_session" -> sessions r.2 = sessions a) /\
  (type m <> "model_command" -> multiModelManager r.2 = multiModelManager a) /\
  (type m <> "tool_call" -> actions r.2 = actions a) /\
  (type m ∉ knownTypes ->
   r = (error ("Unknown message type: " +:+ type m), a)).
Proof.
  intros r. subst r. destruct (decide (type m ∈ knownTypes)) as [Hin|Hout].
  - unfold knownTypes in Hin.
    repeat (apply elem_of_cons in Hin as [Hty | Hin]);
      [ .. | apply elem_of_nil in Hin; contradiction ].
    all: unfold handleMessage; rewrite Hty.
    + cbn. repeat split; auto. intros Hn. exfalso. apply Hn.
      unfold knownTypes. repeat constructor.
    + unfold handleNewSession. cbn. repeat split; auto; try congruence.
      intros Hn. exfalso. apply Hn. unfold knownTypes. repeat constructor.
    + cbn. repeat split; auto. intros Hn. exfalso. apply Hn.
      unfold knownTypes. repeat constructor.
    + destruct (handleToolCall_frame executeTool e m a) as (H1 & H2 & H3).
      rewrite H1, H2, H3. repeat split; auto; try congruence.
      intros Hn. exfalso. apply Hn. unfold knownTypes. repeat constructor.
    + destruct (handleModelCommand_frame m a) as (H1 & H2 & H3 & H4 & H5).
      rewrite H1, H2, H3, H4, H5. repeat split; auto; try congruence.
      intros Hn. exfalso. apply Hn. unfold knownTypes. repeat constructor.
    + cbn. repeat split; auto. intros Hn. exfalso. apply Hn.
      unfold knownTypes. repeat constructor.
  - rewrite (handleMessage_default _ _ _ _ Hout). cbn. repeat split; auto.
Qed.

(** X25. A session made by a new_session message can be used at once: a
    prompt message for the identifier it answered, with a text of ASCII
    characters, is answered with the text of the current model, prefixed
    by its name in brackets, and the prompt changes nothing. *)
Theorem new_session_then_prompt executeTool e e' m a text p :
  type m = "new_session" ->
  uuid e <> "" -> text <> "" -> isASCII text = true ->
  MultiModel.getCurrentModelProfile (multiModelManager a) = Some p ->
  MultiModel.name p <> "" ->
  let created := handleMessage executeTool e m a in
  created.1 = new_session_response (uuid e) /\
  handleMessage executeTool e' (promptMessage (uuid e) text) created.2
  = (prompt_response (uuid e)
       ("[" +:+ MultiModel.name p +:+ "] "
        +:+ MultiModel.simulateModelCall p text None)
       (MultiModel.name p),
     created.2).
Proof.
  intros Hty Hu Ht _ Hp Hname created.
  assert (Hcreated : created = handleNewSession e a).
  { subst created. unfold handleMessage. rewrite Hty. reflexivity. }
  rewrite Hcreated. clear Hcreated created. cbn [fst snd handleNewSession].
  split; [reflexivity|].
  unfold handleMessage, promptMessage. cbn [type]. unfold handlePrompt.
  cbn [sessionId prompt]. rewrite !or_str_Some by assumption.
  rewrite !bool_decide_eq_false_2 by assumption. cbn [orb].
  cbn [sessions with_sessions handleNewSession snd]. rewrite lookup_insert_eq.
  cbn [cancelled multiModelManager with_sessions].
  unfold MultiModel.executeWithModel, MultiModel.getCurrentModelProfile in *.
  cbn [or_str]. rewrite !Hp.
  cbn [fmap option_fmap option_map]. rewrite (or_str_Some _ _ Hname). reflexivity.
Qed.

(** The hypotheses of [new_session_then_prompt] are met by a new agent. *)
Lemma new_session_then_prompt_witness :
  let m := {| type := "new_session"; sessionId := None; toolCall := None;
              prompt := None; command := None; modelName := None |} in
  (handleMessage notImplemented env0 m (new env0 noConfig)).1
  = new_session_response "s-1".
Proof.
  intros m.
  destruct (MultiModel.getCurrentModelProfile
              (multiModelManager (new env0 noConfig))) as [p|] eqn:Hp;
    [|vm_compute in Hp; discriminate].
  refine (proj1 (new_session_then_prompt notImplemented env0 env0 m
                   (new env0 noConfig) "hello" p eq_refl _ _ eq_refl Hp _)).
  - discriminate.
  - discriminate.
  - vm_compute in Hp. injection Hp as <-. discriminate.
Defined.

Lemma default_profiles_named :
  map_Forall (fun k p => MultiModel.name p = k)
    (MultiModel.modelProfiles MultiModel.new).
Proof.
  apply map_Forall_to_list. vm_compute. repeat constructor.
Qed.

(** X26. A switch command for a model that has a profile succeeds, and
    the list_models answer that follows names that model as the current
    one and flags its entry, and only entries of that name, as current.
    A switch command for a model without a profile is answered with a
    failure and leaves the current model as it was. Stated for the
    profiles of the constructor, which the router never changes. *)
Theorem switch_then_list_models n a :
  MultiModel.modelProfiles (multiModelManager a)
  = MultiModel.modelProfiles MultiModel.new ->
  n <> "" ->
  let switched := handleModelCommand (switchMessage n) a in
  (is_Some (MultiModel.modelProfiles (multiModelManager a) !! n) ->
   switched.1 = model_switched ("Switched to model: " +:+ n) n /\
   exists models,
     handleListModels switched.2 = models_response models n /\
     (forall name provider current,
        (name, provider, current) ∈ models -> (current = true <-> name = n)) /\
     (exists provider, (n, provider, true) ∈ models)) /\
  (MultiModel.modelProfiles (multiModelManager a) !! n = None ->
   exists msg models, switched.1 = model_not_found msg models /\ switched.2 = a).
Proof.
  intros Hprofiles Hn switched. subst switched.
  unfold handleModelCommand, switchMessage. cbn [command modelName].
  rewrite (or_str_Some n _ Hn). rewrite (bool_decide_eq_false_2 _ Hn).
  cbn [negb andb]. unfold MultiModel.getModelProfile. split.
  - intros Hsome. rewrite (bool_decide_eq_true_2 _ Hsome). cbn [fst snd].
    split; [reflexivity|].
    unfold MultiModel.setCurrentModel. rewrite (bool_decide_eq_true_2 _ Hsome).
    cbn [snd]. unfold handleListModels, MultiModel.getCurrentModel,
      MultiModel.getAllModelProfiles.
    cbn [multiModelManager with_multiModelManager MultiModel.currentModel
         MultiModel.modelProfiles].
    eexists. split; [reflexivity|]. split.
    + intros name provider current Hin.
      apply list_elem_of_fmap in Hin as (p & Heq & _).
      injection Heq as -> -> ->. apply bool_decide_eq_true.
    + destruct Hsome as [p Hp]. exists (MultiModel.provider p).
      apply list_elem_of_fmap. exists p. split.
      * assert (Hname : MultiModel.name p = n).
        { rewrite Hprofiles in Hp. exact (default_profiles_named n p Hp). }
        rewrite Hname, bool_decide_eq_true_2 by reflexivity. reflexivity.
      * apply elem_of_map_to_list in Hp.
        apply (list_elem_of_fmap_2 snd) in Hp. exact Hp.
  - intros Hnone. rewrite bool_decide_eq_false_2
      by (rewrite Hnone; intros [? ?]; discriminate).
    eexists _, _. split; reflexivity.
Qed.

(** The hypotheses of [switch_then_list_models] are met by a new agent and
    the model ['gpt-4o']. *)
Lemma switch_then_list_models_witness :
  MultiModel.modelProfiles (multiModelManager (new env0 noConfig))
  = MultiModel.modelProfiles MultiModel.new /\
  (handleModelCommand (switchMessage "gpt-4o") (new env0 noConfig)).1
  = model_switched "Switched to model: gpt-4o" "gpt-4o".
Proof.
  split; [reflexivity|].
  refine (proj1 (proj1 (switch_then_list_models "gpt-4o" (new env0 noConfig)
                          eq_refl _) _)).
  - discriminate.
  - vm_compute. eexists. reflexivity.
Defined.

End AgentCoverage.

(** * The event emitter *)

Section EmitterFacts.
Import Types Emitter.

Lemma indexOf_middle (x : Listener) (pre r : list Listener) :
  x ∉ pre -> indexOf x (pre ++ x :: r)%list = Some (length pre).
Proof.
  induction pre as [|y pre IH]; intros Hx; cbn.
  - destruct (decide (x = x)); congruence.
  - apply not_elem_of_cons in Hx as [Hxy Hx].
    destruct (decide (x = y)); [congruence|].
    rewrite (IH Hx). reflexivity.
Qed.

Lemma indexOf_absent (x : Listener) (l : list Listener) :
  x ∉ l -> indexOf x l = None.
Proof.
  induction l as [|y l IH]; intros Hx; cbn; [reflexivity|].
  apply not_elem_of_cons in Hx as [Hxy Hx].
  destruct (decide (x = y)); [congruence|].
  rewrite (IH Hx). reflexivity.
Qed.

Lemma indexOf_sublist (x : Listener) (l : list Listener) :
  (match indexOf x l with
   | Some index => delete index l
   | None => l
   end) `sublist_of` l.
Proof. destruct (indexOf x l); [apply sublist_delete | reflexivity]. Qed.

Lemma sublist_ranks (l1 l2 : list Listener) :
  l1 `sublist_of` l2 -> omap rank l1 `sublist_of` omap rank l2.
Proof.
  induction 1 as [|x l1 l2 _ IH|x l1 l2 _ IH]; cbn.
  - constructor.
  - destruct (rank x); [apply sublist_skip|]; exact IH.
  - destruct (rank x); [apply sublist_cons|]; exact IH.
Qed.

Lemma wrapper_once (pre r : list Listener) (k f : nat) :
  NoDup (omap rank (pre ++ OnceWrapper k f :: r)%list) ->
  (OnceWrapper k f ∉ pre) /\ NoDup (omap rank (pre ++ r)%list).
Proof.
  rewrite !omap_app. cbn. intros H.
  apply NoDup_app in H as (Hpre & Hdis & Hr).
  apply NoDup_cons in Hr as [Hk Hr]. split.
  - intros Hin. apply (Hdis k).
    + apply list_elem_of_omap. exists (OnceWrapper k f). auto.
    + left.
  - apply NoDup_app. split; [exact Hpre|]. split; [|exact Hr].
    intros x Hx Hxr. apply (Hdis x Hx). right. exact Hxr.
Qed.

Lemma survivors_sublist (l : list Listener) : survivors l `sublist_of` l.
Proof.
  induction l as [l IH] using (induction_ltof1 _ (@length _)).
  unfold ltof in IH. destruct l as [|[f|k f] r]; cbn.
  - constructor.
  - apply sublist_skip, IH. cbn. lia.
  - destruct r as [|y r]; [apply sublist_nil_l|].
    apply sublist_cons, sublist_skip, IH. cbn. lia.
Qed.

Lemma visited_plain (l : list Listener) :
  Forall (fun x => rank x = None) l -> visited l = l /\ survivors l = l.
Proof.
  induction 1 as [|[f|k f] l Hx _ [IH1 IH2]]; cbn; [auto| |discriminate].
  rewrite IH1, IH2. auto.
Qed.

(** ** What [removeListener] does to the array of its event *)

Lemma listeners_present (event : string) (em : EventEmitter) :
  listeners event em <> [] ->
  events em !! event = Some (listeners event em).
Proof.
  unfold listeners. destruct (events em !! event); cbn; congruence.
Qed.

Lemma removeListener_middle (event : string) (x : Listener)
    (pre r : list Listener) (em : EventEmitter) :
  listeners event em = (pre ++ x :: r)%list -> x ∉ pre ->
  let em' := removeListener event x em in
  listeners event em' = (pre ++ r)%list /\
  (forall other, other <> event -> events em' !! other = events em !! other) /\
  wrappers em' = wrappers em /\ calls em' = calls em.
Proof.
  intros Hl Hx. cbv zeta. unfold removeListener.
  rewrite (listeners_present event em) by (rewrite Hl; by destruct pre).
  rewrite Hl, (indexOf_middle _ _ _ Hx), delete_middle.
  case_bool_decide as Hlen; unfold listeners; cbn.
  - rewrite lookup_delete_eq. cbn.
    apply length_zero_iff_nil in Hlen. rewrite Hlen.
    split; [reflexivity|]. split; [|auto].
    intros other Ho. by rewrite lookup_delete_ne.
  - rewrite lookup_insert_eq. cbn.
    split; [reflexivity|]. split; [|auto].
    intros other Ho. by rewrite lookup_insert_ne.
Qed.

Lemma emit_loop_done (event : string) (args : list Json) (fuel index : nat)
    (em : EventEmitter) :
  (length (listeners event em) <= index)%nat ->
  emit_loop event args fuel index em = em.
Proof.
  intros H. destruct fuel; cbn; [reflexivity|].
  rewrite lookup_ge_None_2 by exact H. reflexivity.
Qed.

(** ** The loop of [emit] *)

Lemma emit_loop_spec (event : string) (args : list Json) (fuel : nat) :
  forall (pre rest : list Listener) (em : EventEmitter),
  (length rest <= fuel)%nat ->
  listeners event em = (pre ++ rest)%list ->
  NoDup (omap rank (pre ++ rest)%list) ->
  let em' := emit_loop event args fuel (length pre) em in
  listeners event em' = (pre ++ survivors rest)%list /\
  calls em' = (calls em ++ ((fun l => (target l, args)) <$> visited rest))%list /\
  (forall other, other <> event -> events em' !! other = events em !! other) /\
  wrappers em' = wrappers em.
Proof.
  induction fuel as [|fuel IH]; intros pre rest em Hfuel Hl Hnd; cbv zeta.
  - destruct rest; [|cbn in Hfuel; lia]. cbn.
    rewrite ?app_nil_r in *. auto.
  - destruct rest as [|x r].
    + rewrite emit_loop_done by (rewrite Hl, app_nil_r; lia).
      cbn. rewrite ?app_nil_r in *. auto.
    + cbn [emit_loop]. rewrite Hl, list_lookup_middle by reflexivity.
      destruct x as [f|k f].
      * set (em1 := invoke event args (Plain f) em).
        assert (Hl1 : listeners event em1 = ((pre ++ [Plain f]) ++ r)%list).
        { rewrite <- app_assoc. exact Hl. }
        assert (Hlen : S (length pre) = length (pre ++ [Plain f])%list).
        { rewrite length_app. cbn. lia. }
        rewrite Hlen.
        destruct (IH (pre ++ [Plain f])%list r em1) as (H1 & H2 & H3 & H4).
        { cbn in Hfuel. lia. }
        { exact Hl1. }
        { rewrite <- app_assoc. exact Hnd. }
        rewrite H1, H2. cbn. rewrite <- !app_assoc. cbn.
        repeat split; try reflexivity; assumption.
      * apply wrapper_once in Hnd as [Hx Hnd].
        destruct (removeListener_middle event _ pre r em Hl Hx)
          as (R1 & R2 & R3 & R4).
        set (em1 := invoke event args (OnceWrapper k f) em).
        assert (Hl1 : listeners event em1 = (pre ++ r)%list) by exact R1.
        assert (Hc1 : calls em1 = (calls em ++ [(f, args)])%list).
        { unfold em1, invoke. cbn. rewrite R4. reflexivity. }
        assert (He1 : forall other, other <> event ->
                  events em1 !! other = events em !! other) by exact R2.
        assert (Hw1 : wrappers em1 = wrappers em) by exact R3.
        clearbody em1. destruct r as [|y r].
        { rewrite emit_loop_done by (rewrite Hl1, app_nil_r; lia).
          cbn. rewrite Hl1, Hc1. auto. }
        assert (Hlen : S (length pre) = length (pre ++ [y])%list).
        { rewrite length_app. cbn. lia. }
        rewrite Hlen.
        destruct (IH (pre ++ [y])%list r em1) as (H1 & H2 & H3 & H4).
        { cbn in Hfuel. lia. }
        { rewrite <- app_assoc. exact Hl1. }
        { rewrite <- app_assoc. exact Hnd. }
        rewrite H1, H2, Hc1, H4, Hw1. cbn. rewrite <- !app_assoc. cbn.
        repeat split; try reflexivity.
        intros other Ho. rewrite H3, He1 by exact Ho. reflexivity.
Qed.

Lemma emit_loop_plain (event : string) (args : list Json) :
  forall (rest pre : list Listener) (fuel : nat) (em : EventEmitter),
  (length rest <= fuel)%nat ->
  listeners event em = (pre ++ rest)%list ->
  Forall (fun x => rank x = None) rest ->
  emit_loop event args fuel (length pre) em =
  {| events := events em; wrappers := wrappers em;
     calls := (calls em ++ ((fun l => (target l, args)) <$> rest))%list |}.
Proof.
  induction rest as [|x r IH]; intros pre fuel em Hfuel Hl Hp.
  - rewrite emit_loop_done by (rewrite Hl, app_nil_r; lia).
    cbn. rewrite app_nil_r. by destruct em.
  - destruct fuel as [|fuel]; [cbn in Hfuel; lia|].
    cbn [emit_loop]. rewrite Hl, list_lookup_middle by reflexivity.
    apply Forall_cons in Hp as [Hx Hp].
    destruct x as [f|k f]; [|discriminate].
    assert (Hlen : S (length pre) = length (pre ++ [Plain f])%list).
    { rewrite length_app. cbn. lia. }
    rewrite Hlen, IH.
    + cbn. rewrite <- app_assoc. reflexivity.
    + cbn in Hfuel. lia.
    + rewrite <- app_assoc. exact Hl.
    + exact Hp.
Qed.

(** ** Well-formed emitters *)

Lemma wellFormed_new : wellFormed new.
Proof. intros event ls H. cbn in H. by rewrite lookup_empty in H. Qed.

Lemma wellFormed_current (event : string) (em : EventEmitter) :
  wellFormed em ->
  NoDup (omap rank (listeners event em)) /\
  Forall (fun l => forall k, rank l = Some k -> (k < wrappers em)%nat)
    (listeners event em).
Proof.
  intros Hwf. unfold listeners.
  destruct (events em !! event) as [ls|] eqn:He; cbn.
  - destruct (Hwf _ _ He) as (_ & H1 & H2). auto.
  - split; constructor.
Qed.

Lemma wellFormed_on (event : string) (f : nat) (em : EventEmitter) :
  wellFormed em -> wellFormed (on event (Plain f) em).
Proof.
  intros Hwf other ls. unfold on. cbn.
  destruct (decide (other = event)) as [->|Hne].
  - rewrite lookup_insert_eq. intros [= <-].
    destruct (wellFormed_current event em Hwf) as [H1 H2].
    split; [by destruct (listeners event em)|]. split.
    + rewrite omap_app. cbn. rewrite app_nil_r. exact H1.
    + apply Forall_app. split; [exact H2|].
      constructor; [|constructor]. discriminate.
  - rewrite lookup_insert_ne by congruence. apply Hwf.
Qed.

Lemma wellFormed_once (event : string) (f : nat) (em : EventEmitter) :
  wellFormed em -> wellFormed (once event f em).
Proof.
  intros Hwf other ls. unfold once, on. cbn.
  change (listeners event {| events := events em; wrappers := S (wrappers em);
                              calls := calls em |})
    with (listeners event em).
  destruct (decide (other = event)) as [->|Hne].
  - rewrite lookup_insert_eq. intros [= <-].
    destruct (wellFormed_current event em Hwf) as [H1 H2].
    split; [by destruct (listeners event em)|]. split.
    + rewrite omap_app. cbn. apply NoDup_app. split; [exact H1|].
      split; [|apply NoDup_singleton].
      intros k Hk Hin. apply list_elem_of_singleton in Hin. subst k.
      apply list_elem_of_omap in Hk as (l & Hl & Hr).
      rewrite Forall_forall in H2. specialize (H2 l Hl _ Hr). lia.
    + apply Forall_app. split.
      * eapply Forall_impl; [exact H2|]. cbn. intros l Hl k Hk.
        specialize (Hl k Hk). lia.
      * constructor; [|constructor]. cbn. intros k [= <-]. lia.
  - rewrite lookup_insert_ne by congruence. intros Hls.
    destruct (Hwf _ _ Hls) as (H0 & H1 & H2).
    split; [exact H0|]. split; [exact H1|].
    eapply Forall_impl; [exact H2|]. cbn. intros l Hl k Hk.
    specialize (Hl k Hk). lia.
Qed.

Lemma wellFormed_removeListener (event : string) (x : Listener)
    (em : EventEmitter) :
  wellFormed em -> wellFormed (removeListener event x em).
Proof.
  intros Hwf. unfold removeListener.
  destruct (events em !! event) as [ls|] eqn:He; [|exact Hwf].
  pose proof (indexOf_sublist x ls) as Hsub.
  set (ls' := match indexOf x ls with
              | Some index => delete index ls
              | None => ls
              end) in *.
  destruct (Hwf _ _ He) as (_ & H1 & H2).
  case_bool_decide as Hlen; intros other l; cbn.
  - destruct (decide (other = event)) as [->|Hne].
    + by rewrite lookup_delete_eq.
    + rewrite lookup_delete_ne by congruence. apply Hwf.
  - destruct (decide (other = event)) as [->|Hne].
    + rewrite lookup_insert_eq. intros [= <-].
      split; [by destruct ls'|]. split.
      * eapply sublist_NoDup; [exact H1|]. by apply sublist_ranks.
      * rewrite Forall_forall in *. intros l Hl.
        apply H2. eapply elem_of_sublist; eauto.
    + rewrite lookup_insert_ne by congruence. apply Hwf.
Qed.

Lemma wellFormed_removeAllListeners (event : option string)
    (em : EventEmitter) :
  wellFormed em -> wellFormed (removeAllListeners event em).
Proof.
  intros Hwf. unfold removeAllListeners.
  case_bool_decide; intros other l; cbn.
  - by rewrite lookup_empty.
  - destruct (decide (other = or_str event "")) as [->|Hne].
    + by rewrite lookup_delete_eq.
    + rewrite lookup_delete_ne by congruence. apply Hwf.
Qed.

Lemma wellFormed_log (em : EventEmitter) (c : list (nat * list Json)) :
  wellFormed em ->
  wellFormed {| events := events em; wrappers := wrappers em; calls := c |}.
Proof. intros Hwf. exact Hwf. Qed.

Lemma wellFormed_emit_loop (event : string) (args : list Json) (fuel : nat) :
  forall (index : nat) (em : EventEmitter),
  wellFormed em -> wellFormed (emit_loop event args fuel index em).
Proof.
  induction fuel as [|fuel IH]; intros index em Hwf; cbn; [exact Hwf|].
  destruct (listeners event em !! index) as [l|]; [|exact Hwf].
  apply IH. unfold invoke. apply wellFormed_log.
  destruct l; [exact Hwf|]. by apply wellFormed_removeListener.
Qed.

Lemma reachable_wellFormed (em : EventEmitter) :
  reachable em -> wellFormed em.
Proof.
  induction 1 as [|c em _ IH]; [exact wellFormed_new|].
  destruct c; cbn.
  - by apply wellFormed_on.
  - by apply wellFormed_once.
  - unfold emit. destruct (events em !! event); cbn; [|exact IH].
    by apply wellFormed_emit_loop.
  - by apply wellFormed_removeListener.
  - by apply wellFormed_removeAllListeners.
Qed.

Lemma elem_of_eventNames (event : string) (em : EventEmitter) :
  event ∈ eventNames em <-> is_Some (events em !! event).
Proof.
  unfold eventNames. rewrite list_elem_of_fmap. split.
  - intros ([k v] & -> & H). apply elem_of_map_to_list in H. eauto.
  - intros [v H]. exists (event, v). split; [reflexivity|].
    by apply elem_of_map_to_list.
Qed.

Lemma reachable_oneOfEach : reachable oneOfEach.
Proof. unfold oneOfEach. do 2 apply reachable_perform. apply reachable_new. Defined.

(** X27. Over every emitter reachable through its methods, [emit] on an
    event that has listeners answers [true] and calls them in the order of
    registration with the arguments given, except that after each
    one-shot wrapper it steps over the listener registered next: the calls
    made are those of [visited], the one-shot wrappers called are gone
    afterwards and the listeners stepped over stay registered
    ([survivors]); the listeners of the other events are untouched. *)
Theorem emit_visits (event : string) (args : list Json) (em : EventEmitter)
    (ls : list Listener) :
  reachable em -> events em !! event = Some ls ->
  let r := emit event args em in
  r.1 = true /\
  calls r.2 = (calls em ++ ((fun l => (target l, args)) <$> visited ls))%list /\
  listeners event r.2 = survivors ls /\
  forall other, other <> event -> listeners other r.2 = listeners other em.
Proof.
  intros Hr He. cbv zeta. unfold emit. rewrite He. cbn [fst snd].
  destruct (reachable_wellFormed em Hr _ _ He) as (_ & Hnd & _).
  destruct (emit_loop_spec event args (length ls) [] ls em)
    as (H1 & H2 & H3 & _).
  { lia. }
  { unfold listeners. rewrite He. reflexivity. }
  { exact Hnd. }
  cbn in H1, H2, H3. repeat split; try assumption.
  intros other Ho. unfold listeners. rewrite H3 by exact Ho. reflexivity.
Qed.

Lemma emit_visits_witness :
  let r := emit "ready" [] (once "ready" 3 oneOfEach) in
  r.1 = true /\
  calls r.2 = [(1%nat, []); (2%nat, [])] /\
  listeners "ready" r.2 = [Plain 1; OnceWrapper 1 3] /\
  forall other, other <> "ready" ->
    listeners other r.2 = listeners other (once "ready" 3 oneOfEach).
Proof.
  apply (emit_visits "ready" [] (once "ready" 3 oneOfEach)
           [Plain 1; OnceWrapper 0 2; OnceWrapper 1 3]).
  - apply (reachable_perform (CallOnce "ready" 3)), reachable_oneOfEach.
  - vm_compute. reflexivity.
Defined.

(** X28. When every listener of an event was registered with [on], [emit]
    calls each of them once, in the order of registration, with the
    arguments given, answers [true] and changes nothing else in the
    emitter. *)
Theorem emit_plain_listeners (event : string) (args : list Json)
    (em : EventEmitter) (ls : list Listener) :
  events em !! event = Some ls ->
  Forall (fun l => rank l = None) ls ->
  emit event args em =
  (true, {| events := events em; wrappers := wrappers em;
            calls := (calls em ++ ((fun l => (target l, args)) <$> ls))%list |}).
Proof.
  intros He Hp. unfold emit. rewrite He. f_equal.
  apply (emit_loop_plain event args ls [] (length ls) em).
  - lia.
  - unfold listeners. rewrite He. reflexivity.
  - exact Hp.
Qed.

Lemma emit_plain_listeners_witness :
  emit "ready" [JStr "go"] (on "ready" (Plain 2) (on "ready" (Plain 1) new)) =
  (true, {| events := {[ "ready" := [Plain 1; Plain 2] ]}; wrappers := 0;
            calls := [(1%nat, [JStr "go"]); (2%nat, [JStr "go"])] |}).
Proof.
  apply (emit_plain_listeners "ready" [JStr "go"]
           (on "ready" (Plain 2) (on "ready" (Plain 1) new))
           [Plain 1; Plain 2]).
  - vm_compute. reflexivity.
  - repeat constructor.
Defined.

(** X29. Over every emitter reachable through its methods, no event is
    kept without a listener: the names [eventNames] lists are exactly the
    events whose [listenerCount] is positive, and [emit] answers [true]
    exactly for them. *)
Theorem reachable_events_have_listeners (event : string) (args : list Json)
    (em : EventEmitter) :
  reachable em ->
  (event ∈ eventNames em <-> (0 < listenerCount event em)%nat) /\
  (emit event args em).1 = bool_decide (0 < listenerCount event em)%nat.
Proof.
  intros Hr. pose proof (reachable_wellFormed em Hr event) as Hwf.
  rewrite elem_of_eventNames.
  unfold listenerCount, listeners, emit.
  destruct (events em !! event) as [ls|] eqn:He; cbn.
  - destruct (Hwf ls eq_refl) as (Hne & _).
    assert (0 < length ls)%nat by (destruct ls; [congruence|cbn; lia]).
    rewrite bool_decide_eq_true_2 by assumption. split; [|reflexivity].
    split; [auto|]. intros _. eauto.
  - rewrite bool_decide_eq_false_2 by lia. split; [|reflexivity].
    split; [|lia]. intros [x Hx]. congruence.
Qed.

Lemma reachable_events_have_listeners_witness :
  ("ready" ∈ eventNames oneOfEach <-> (0 < listenerCount "ready" oneOfEach)%nat) /\
  (emit "ready" [] oneOfEach).1 = bool_decide (0 < listenerCount "ready" oneOfEach)%nat.
Proof.
  apply (reachable_events_have_listeners "ready" [] oneOfEach).
  exact reachable_oneOfEach.
Defined.

(** X30. Over every emitter reachable through its methods and a function
    [f] not registered with [on] for the event: [removeListener] with [f]
    undoes [on] with [f], giving back the emitter as it was, but it does
    not undo [once] with [f], whose wrapper stays registered. *)
Theorem removeListener_undoes_on_not_once (event : string) (f : nat)
    (em : EventEmitter) :
  reachable em -> Plain f ∉ listeners event em ->
  removeListener event (Plain f) (on event (Plain f) em) = em /\
  removeListener event (Plain f) (once event f em) = once event f em.
Proof.
  intros Hr Hf. pose proof (reachable_wellFormed em Hr event) as Hwf.
  split.
  - unfold removeListener, on. cbn [events with_events].
    rewrite lookup_insert_eq, (indexOf_middle _ _ [] Hf), delete_middle.
    rewrite app_nil_r. unfold listeners in *.
    destruct (events em !! event) as [ls|] eqn:He; cbn [default] in *.
    + destruct (Hwf ls eq_refl) as (Hne & _).
      rewrite bool_decide_eq_false_2
        by (destruct ls; [congruence|cbn; lia]).
      unfold with_events. cbn.
      rewrite insert_insert_eq, insert_id by exact He. by destruct em.
    + rewrite bool_decide_eq_true_2 by reflexivity.
      unfold with_events. cbn.
      rewrite delete_insert_eq, delete_id by exact He. by destruct em.
  - unfold removeListener, once, on. cbn [events with_events].
    rewrite lookup_insert_eq.
    change (listeners event {| events := events em;
                               wrappers := S (wrappers em);
                               calls := calls em |})
      with (listeners event em).
    rewrite indexOf_absent.
    + rewrite bool_decide_eq_false_2
        by (rewrite length_app; cbn; lia).
      unfold with_events. cbn. rewrite insert_insert_eq. reflexivity.
    + rewrite elem_of_app, list_elem_of_singleton. intros [H|H]; [auto|].
      discriminate.
Qed.

Lemma removeListener_undoes_on_not_once_witness :
  removeListener "ready" (Plain 3) (on "ready" (Plain 3) oneOfEach) = oneOfEach /\
  removeListener "ready" (Plain 3) (once "ready" 3 oneOfEach) =
  once "ready" 3 oneOfEach.
Proof.
  apply (removeListener_undoes_on_not_once "ready" 3 oneOfEach).
  - exact reachable_oneOfEach.
  - vm_compute. intros H. apply list_elem_of_In in H. cbn in H.
    intuition discriminate.
Defined.

End EmitterFacts.
